(** * rulego-components-iot: the OPC UA read node and the OPC UA endpoint

    A shallow embedding of

    - [ReadNode.OnMsg] (the x/opcuaRead rule node: one-shot read of the node
      ids carried by a message), and
    - [OpcUa] (the endpoint: [AddRouter], [RemoveRouter], [Start], [Close],
      the scheduled callback and [readNodes]),

    followed by the properties of their result decoding, error reporting,
    scheduling and active-operation accounting.

    Go values are rendered as follows.  A pointer that may be nil is an
    [option]; a slice is a [list], indexed with stdpp's [!!] and updated with
    [<[i:=x]>], with the run-time bounds check of Go written out; a run-time
    panic is the [Panic] outcome of the [Outcome] monad; an [error] result
    is the [Err] case of [result].  Collaborators that live outside the two
    source files (the gopcua client, encoding/json, robfig/cron, rulego's
    SharedNode and GracefulShutdown, the package pkg/opcua_client) are
    operations of an environment class or small models, each marked where it
    is declared. *)

From Stdlib Require Import ZArith Lia Strings.Ascii Floats.SpecFloat.
From stdpp Require Import base tactics option list strings gmap.

Set Default Proof Using "Type".
Open Scope Z_scope.

(** ** Go results and panics *)

(** A Go error value.  [Errorf_read_failed errs] is the value built by
    [fmt.Errorf("read failed: %q ", errs)]; the other constructors are errors
    handed over by collaborators. *)
Inductive error : Type :=
  | errors_New (text : string)
  | Errorf_read_failed (errs : list string)
  | UnsupportedValueError (text : string).

(** [(v, err)] with [err == nil] is [Ok v]; with [err != nil] it is [Err err]. *)
Inductive result (A : Type) : Type :=
  | Ok (a : A)
  | Err (err : error).
Arguments Ok {A} a.
Arguments Err {A} err.

(** What a run-time panic carries. *)
Inductive PanicValue : Type :=
  | NilDereference
  | IndexOutOfRange (index len : nat)
  | PanicOther (text : string).

(** A computation that either completes with a value or panics. *)
Inductive Outcome (A : Type) : Type :=
  | Done (a : A)
  | Panic (p : PanicValue).
Arguments Done {A} a.
Arguments Panic {A} p.

Definition Outcome_bind {A B} (m : Outcome A) (k : A -> Outcome B) : Outcome B :=
  match m with
  | Done a => k a
  | Panic p => Panic p
  end.

(** ** The gopcua data the code reads *)

Module ua.

(** [ua.StatusCode] is a [uint32]; [ua.StatusOK] is 0. *)
Definition StatusCode : Type := Z.
Definition StatusOK : StatusCode := 0.
Definition StatusBadNodeIDUnknown : StatusCode := 0x80340000.
Definition StatusBadUserAccessDenied : StatusCode := 0x801F0000.

(** [time.Time], as a count of nanoseconds. *)
Definition Time : Type := Z.

(** What [Variant.Value()] hands back as an [interface{}]. *)
Inductive any : Type :=
  | any_nil
  | any_bool (b : bool)
  | any_int (n : Z)
  | any_float64 (f : spec_float)
  | any_string (s : string).

(** [ua.DataValue], the fields the code reads.  [Value] is the pointer
    [result.Value] to a [ua.Variant]: [None] is the nil pointer, as in a
    data value that carries no value, and [Some v] a Variant whose
    [Value()] is [v].  On the nil pointer [Value()] panics. *)
Record DataValue : Type := mkDataValue {
  Value : option any;
  Status : StatusCode;
  SourceTimestamp : Time;
  ServerTimestamp : Time
}.

(** [ua.ReadResponse]: [Results] is a [[]*ua.DataValue], so every slot is
    a pointer and [None] is the nil pointer. *)
Record ReadResponse : Type := mkReadResponse {
  Results : list (option DataValue)
}.

End ua.

(** ** pkg/opcua_client *)

Module opcuaClient.

(** [opcuaClient.Data], the Decoded Reading; the fields are those the
    composite literal of [OnMsg] sets, plus the [floatValue] of the result
    format documented on [ReadNode]. *)
Record Data : Type := mkData {
  DisplayName : string;
  NodeId : string;
  RecordTime : ua.Time;
  SourceTime : ua.Time;
  Value : ua.any;
  Quality : Z;
  FloatValue : spec_float;
  Timestamp : ua.Time
}.

Definition with_FloatValue (f : spec_float) (d : Data) : Data :=
  {| DisplayName := DisplayName d; NodeId := NodeId d;
     RecordTime := RecordTime d; SourceTime := SourceTime d;
     Value := Value d; Quality := Quality d;
     FloatValue := f; Timestamp := Timestamp d |}.

(** Modelled from the spec: [Data.ParseValue] of pkg/opcua_client is not
    among the source files.  Section 4.2: a best-effort secondary parse
    (numeric coercion) is attempted and attached to the Decoded Reading;
    when it fails the reading is kept and only the secondary parse is
    omitted.  The coercion itself is the argument [coerce]. *)
Definition ParseValue (coerce : ua.any -> option spec_float) (d : Data) : Data :=
  match coerce (Value d) with
  | Some f => with_FloatValue f d
  | None => d
  end.

(** The protocol client behind the batched read: [batch_error ids] is the
    transport-level error of one request for [ids], if there is one, and
    [slot i id] the [i]-th slot of the response, the one for the [i]-th
    identifier [id]. *)
Record Batch : Type := mkBatch {
  batch_error : list string -> option error;
  slot : nat -> string -> option ua.DataValue
}.

(** The entry for a node id before anything is read: the id as node id
    and display name, as in the result format documented on [ReadNode]. *)
Definition entry (id : string) : Data :=
  {| DisplayName := id; NodeId := id; RecordTime := 0; SourceTime := 0;
     Value := ua.any_nil; Quality := 0; FloatValue := S754_zero false;
     Timestamp := 0 |}.

(** Modelled from the spec: [opcuaClient.Read] of pkg/opcua_client is not
    among the source files.  Sections 4.2, 6 and 8: one batched request
    for all identifiers; a transport-level error aborts the operation and
    is returned alone; otherwise there is exactly one position per
    requested identifier, in request order, the i-th identifier
    corresponding to the i-th slot of the protocol response. *)
Definition Read (b : Batch) (nodeIds : list string)
  : result (list Data * ua.ReadResponse) :=
  match batch_error b nodeIds with
  | Some err => Err err
  | None => Ok (entry <$> nodeIds, {| ua.Results := imap (slot b) nodeIds |})
  end.

End opcuaClient.

(** ** The rule message *)

(** [types.RuleMsg], reduced to its type tag and its payload. *)
Record RuleMsg : Type := mkRuleMsg {
  MsgType : string;
  MsgData : string
}.

Definition SetData (msg : RuleMsg) (data : string) : RuleMsg :=
  {| MsgType := MsgType msg; MsgData := data |}.

(** * ReadNode *)

Module ReadNode.
Import ua opcuaClient.

(** The connection handle, [*opcua.Client]. *)
Definition Client : Type := nat.

(** The collaborators [OnMsg] calls.  [opcuaClient_Read] is the batched
    read of pkg/opcua_client (not among the source files): it returns the
    readings prepared for the request and the protocol response, or the
    operation-level error.  [time_Now i] is the clock as read while slot
    [i] is decoded. *)
Class Env : Type := {
  SharedNode_Get : result Client;
  json_Unmarshal : string -> result (list string);
  opcuaClient_Read : Client -> list string -> result (list Data * ReadResponse);
  json_Marshal : list Data -> result string;
  StatusCode_Error : StatusCode -> string;
  coerce_float : any -> option spec_float;
  time_Now : nat -> Time;
  strconv_Quote : string -> string
}.

(** How the rule context was told about the message. *)
Inductive Told : Type :=
  | TellSuccess (msg : RuleMsg)
  | TellFailure (msg : RuleMsg) (err : error).

(** The three variables the decoding loop updates. *)
Record Loop : Type := mkLoop {
  data : list Data;
  errs : list string;
  succ : bool
}.

Section WithEnv.
Context `{Env}.

(** [result != nil && result.Status != ua.StatusOK] *)
Definition status_failed (result : option DataValue) : bool :=
  match result with
  | Some r => negb (Status r =? StatusOK)
  | None => false
  end.

(** The reading built in the [else] branch for slot [i], from the entry
    [di] found at [data[i]], the dereferenced [result] and the value [v]
    of its Variant: the composite literal, after [d.ParseValue()].
    [uint32(result.Status)] converts a [StatusCode], which is a [uint32],
    to itself.  [FloatValue] is not named by the literal and starts as the
    zero value. *)
Definition reading (i : nat) (di : Data) (r : DataValue) (v : any) : Data :=
  ParseValue coerce_float
    {| DisplayName := DisplayName di;
       NodeId := NodeId di;
       RecordTime := ServerTimestamp r;
       SourceTime := SourceTimestamp r;
       Value := v;
       Quality := Status r;
       FloatValue := S754_zero false;
       Timestamp := time_Now i |}.

(** What position [j] holds once the loop has passed it, given what it
    held before ([old]) and the result found at the same index, if
    there is one: the reading built from that result when its status is
    [StatusOK] (and it has a Variant), and [old] otherwise. *)
Definition slot_after (j : nat) (old : Data) (result : option (option DataValue)) : Data :=
  match result with
  | Some (Some r) =>
      if Status r =? StatusOK then
        match ua.Value r with
        | Some v => reading j old r v
        | None => old
        end
      else old
  | _ => old
  end.

(** A result the loop can pass: it is not nil and, if its status is good,
    it has a Variant. *)
Definition decodable (result : option DataValue) : Prop :=
  match result with
  | Some r => Status r = StatusOK -> is_Some (ua.Value r)
  | None => False
  end.

(** [d] is a reading decoded at slot [i] from the result [r], for the
    node of the entry [di]. *)
Definition decoded_from (i : nat) (di : Data) (r : DataValue) (d : Data) : Prop :=
  DisplayName d = DisplayName di /\
  NodeId d = NodeId di /\
  RecordTime d = ServerTimestamp r /\
  SourceTime d = SourceTimestamp r /\
  ua.Value r = Some (opcuaClient.Value d) /\
  Quality d = Status r /\
  Timestamp d = time_Now i.

(** One iteration of [for i, result := range resp.Results].  In the
    [else] branch the calls among the operands of the composite literal,
    [result.Value.Value()] and [time.Now()], are evaluated before its
    other operands: [result] and then [result.Value] are dereferenced
    before [data[i]] is indexed. *)
Definition loop_body (i : nat) (result : option DataValue) (st : Loop) : Outcome Loop :=
  if status_failed result then
    match result with
    | Some r =>
        if (length (errs st) <? 10)%nat then
          Done {| data := data st;
                  errs := errs st ++ [StatusCode_Error (Status r)];
                  succ := succ st |}
        else Done st
    | None => Done st
    end
  else
    (* result.Value: dereference of result *)
    match result with
    | None => Panic NilDereference
    | Some r =>
        (* .Value(): dereference of the Variant *)
        match ua.Value r with
        | None => Panic NilDereference
        | Some v =>
            (* data[i].DisplayName, data[i].NodeId: bounds-checked indexing *)
            match data st !! i with
            | None => Panic (IndexOutOfRange i (length (data st)))
            | Some di =>
                (* data[i] = d; succ = true *)
                Done {| data := <[i:=reading i di r v]> (data st);
                        errs := errs st;
                        succ := true |}
            end
        end
    end.

(** The [range] loop from index [i] on. *)
Fixpoint range_from (i : nat) (results : list (option DataValue)) (st : Loop)
  : Outcome Loop :=
  match results with
  | [] => Done st
  | result :: rest =>
      Outcome_bind (loop_body i result st) (range_from (S i) rest)
  end.

(** [succ := false; errs := make([]string, 10)] and the loop. *)
Definition decode (data0 : list Data) (resp : ReadResponse) : Outcome Loop :=
  range_from 0 (Results resp)
    {| data := data0; errs := replicate 10 EmptyString; succ := false |}.

(** [ReadNode.OnMsg]. *)
Definition OnMsg (msg : RuleMsg) : Outcome Told :=
  match SharedNode_Get with
  | Err err => Done (TellFailure msg err)
  | Ok client =>
      match json_Unmarshal (MsgData msg) with
      | Err err => Done (TellFailure msg err)
      | Ok nodeIds =>
          match opcuaClient_Read client nodeIds with
          | Err err => Done (TellFailure msg err)
          | Ok (data0, resp) =>
              Outcome_bind (decode data0 resp) (fun st =>
                if succ st then
                  match json_Marshal (data st) with
                  | Err err => Done (TellFailure msg err)
                  | Ok dbyte => Done (TellSuccess (SetData msg dbyte))
                  end
                else Done (TellFailure msg (Errorf_read_failed (errs st))))
          end
      end
  end.

(** The text of [fmt.Errorf("read failed: %q ", errs)]: [%q] on a slice
    of strings prints the quoted elements between brackets, separated
    by one space. *)
Fixpoint join_space (l : list string) : string :=
  match l with
  | [] => EmptyString
  | [s] => s
  | s :: rest => s +:+ " " +:+ join_space rest
  end.

Definition read_failed_text (errs : list string) : string :=
  "read failed: [" +:+ join_space (strconv_Quote <$> errs) +:+ "] ".

End WithEnv.

End ReadNode.

(** * robfig/cron, as far as the endpoint uses it *)

Module cron.

(** [cron.EntryID] is an [int]; 0 is never a valid entry id. *)
Definition EntryID : Type := Z.

Record Entry : Type := mkEntry {
  ID : EntryID;
  Spec : string
}.

(** A [*cron.Cron] object: its entries, whether its scheduler loop runs,
    and the counter that numbers entries. *)
Record Cron : Type := mkCron {
  entries : list Entry;
  running : bool;
  nextID : EntryID
}.

(** [cron.New(...)]: no entries, not running. *)
Definition New : Cron := {| entries := []; running := false; nextID := 0 |}.

(** [c.AddFunc(spec, cmd)]: a spec the parser rejects adds nothing and
    yields id 0 with the parse error; otherwise the counter is advanced
    and an entry with the new id is appended.  [parse] is the parser's
    verdict on the interval expression. *)
Definition AddFunc (parse : string -> option error) (spec : string) (c : Cron)
  : Cron * (EntryID * option error) :=
  match parse spec with
  | Some err => (c, (0, Some err))
  | None =>
      let id := nextID c + 1 in
      ({| entries := entries c ++ [{| ID := id; Spec := spec |}];
          running := running c;
          nextID := id |}, (id, None))
  end.

(** [c.Remove(id)]: drops the entry with that id, if any. *)
Definition Remove (id : EntryID) (c : Cron) : Cron :=
  {| entries := filter (fun e => ID e ≠ id) (entries c);
     running := running c;
     nextID := nextID c |}.

(** [c.Start()]: starts the scheduler loop; nothing if already running. *)
Definition Start (c : Cron) : Cron :=
  {| entries := entries c; running := true; nextID := nextID c |}.

(** [c.Stop()]: stops the scheduler loop; nothing if not running. *)
Definition Stop (c : Cron) : Cron :=
  {| entries := entries c; running := false; nextID := nextID c |}.

(** The entries that can fire: those of a cron whose loop runs. *)
Definition active (c : Cron) : list Entry :=
  if running c then entries c else [].

End cron.

(** * rulego's endpoint API, as far as the endpoint uses it *)

Module endpointApi.

(** [endpointApi.Router], known by its id. *)
Record Router : Type := mkRouter {
  GetId : string
}.

(** [endpointApi.Exchange] as [readNodes] builds it: the request and the
    response message both carry the readings. *)
Record Exchange : Type := mkExchange {
  In_data : list opcuaClient.Data;
  Out_data : list opcuaClient.Data
}.

End endpointApi.

(** * The OPC UA endpoint *)

Module Endpoint.
Import ua opcuaClient.

Definition Client : Type := nat.

(** [OpcUaConfig]. *)
Record OpcUaConfig : Type := mkOpcUaConfig {
  Server : string;
  Policy : string;
  Mode : string;
  Auth : string;
  Username : string;
  Password : string;
  CertFile : string;
  CertKeyFile : string;
  Interval : string;
  NodeIds : list string
}.

(** Calls made on collaborators, in the order they happen.  A cron object
    is named by its serial number: the [n]-th object made by [cron.New]
    has number [n] (counting from 0). *)
Inductive Event : Type :=
  | ev_client_Close (c : Client)
  | ev_NewOpcUaClient
  | ev_Read (c : Client) (ids : list string)
  | ev_DoProcess (r : endpointApi.Router) (e : endpointApi.Exchange)
  | ev_Printf (format : string) (err : error)
  | ev_Increment
  | ev_Decrement
  | ev_cron_New (n : nat)
  | ev_cron_AddFunc (n : nat) (spec : string) (id : cron.EntryID)
  | ev_cron_Remove (n : nat) (id : cron.EntryID)
  | ev_cron_Start (n : nat)
  | ev_cron_Stop (n : nat).

(** The collaborators of the endpoint.  [NewOpcUaClient] is the connect
    sequence behind [initClient]; [opcuaClient_Read] the batched read;
    [cron_Parse] the verdict of the cron parser on an interval expression
    ([None]: accepted); [DoProcess] the processing of an exchange by the
    router, which completes or panics; [client_Close] what the session
    teardown returns. *)
Class Env : Type := {
  NewOpcUaClient : OpcUaConfig -> result Client;
  opcuaClient_Read : Client -> list string -> result (list Data * ReadResponse);
  cron_Parse : string -> option error;
  DoProcess : endpointApi.Router -> endpointApi.Exchange -> option PanicValue;
  client_Close : Client -> option error
}.

(** The [OpcUa] struct and the cron objects it has made.  [cronTask] is
    the cron object behind the pointer of that name ([None]: the pointer
    is nil); only the struct holds that pointer, so the object is kept in
    place.  [dropped] are the cron objects the pointer no longer reaches
    since [Start] overwrote it, oldest first; they still exist, with
    whatever entries and scheduler loop they had.  [isInit] and [client]
    are the state of the embedded SharedNode, [activeOperations] that of
    the embedded GracefulShutdown.  [log] records the calls made on
    collaborators.  [RuleConfig_Logger] tells whether [x.RuleConfig.Logger]
    is there (not nil). *)
Record State : Type := mkState {
  Config : OpcUaConfig;
  Router : option endpointApi.Router;
  cronTask : option cron.Cron;
  taskId : cron.EntryID;
  isInit : bool;
  client : option Client;
  activeOperations : Z;
  dropped : list cron.Cron;
  log : list Event;
  RuleConfig_Logger : bool
}.

Definition set_Router (r : option endpointApi.Router) (s : State) : State :=
  mkState (Config s) r (cronTask s) (taskId s) (isInit s) (client s)
          (activeOperations s) (dropped s) (log s)
          (RuleConfig_Logger s).
Definition set_cronTask (c : option cron.Cron) (s : State) : State :=
  mkState (Config s) (Router s) c (taskId s) (isInit s) (client s)
          (activeOperations s) (dropped s) (log s)
          (RuleConfig_Logger s).
Definition set_taskId (id : cron.EntryID) (s : State) : State :=
  mkState (Config s) (Router s) (cronTask s) id (isInit s) (client s)
          (activeOperations s) (dropped s) (log s)
          (RuleConfig_Logger s).
Definition set_isInit (b : bool) (s : State) : State :=
  mkState (Config s) (Router s) (cronTask s) (taskId s) b (client s)
          (activeOperations s) (dropped s) (log s)
          (RuleConfig_Logger s).
Definition set_client (c : option Client) (s : State) : State :=
  mkState (Config s) (Router s) (cronTask s) (taskId s) (isInit s) c
          (activeOperations s) (dropped s) (log s)
          (RuleConfig_Logger s).
Definition set_activeOperations (n : Z) (s : State) : State :=
  mkState (Config s) (Router s) (cronTask s) (taskId s) (isInit s) (client s)
          n (dropped s) (log s)
          (RuleConfig_Logger s).
Definition set_dropped (cs : list cron.Cron) (s : State) : State :=
  mkState (Config s) (Router s) (cronTask s) (taskId s) (isInit s) (client s)
          (activeOperations s) cs (log s)
          (RuleConfig_Logger s).
Definition set_Logger (b : bool) (s : State) : State :=
  mkState (Config s) (Router s) (cronTask s) (taskId s) (isInit s) (client s)
          (activeOperations s) (dropped s) (log s) b.
Definition emit (e : Event) (s : State) : State :=
  mkState (Config s) (Router s) (cronTask s) (taskId s) (isInit s) (client s)
          (activeOperations s) (dropped s) (log s ++ [e])
          (RuleConfig_Logger s).

(** [OpcUa.New]: the default configuration, nothing attached or made, and
    the zero [RuleConfig], which has no logger. *)
Definition New : State :=
  {| Config := {| Server := "opc.tcp://localhost:4840"; Policy := "None";
                  Mode := "none"; Auth := "anonymous"; Username := "";
                  Password := ""; CertFile := ""; CertKeyFile := "";
                  Interval := "@every 1m"; NodeIds := [] |};
     Router := None; cronTask := None; taskId := 0;
     isInit := false; client := None; activeOperations := 0;
     dropped := []; log := []; RuleConfig_Logger := false |}.

(** ** The monad of methods: state passing, with panics *)

Definition M (A : Type) : Type := State -> Outcome A * State.

Definition ret {A} (a : A) : M A := fun s => (Done a, s).

Definition bind {A B} (m : M A) (k : A -> M B) : M B :=
  fun s =>
    match m s with
    | (Done a, s') => k a s'
    | (Panic p, s') => (Panic p, s')
    end.

Definition gets {A} (f : State -> A) : M A := fun s => (Done (f s), s).
Definition modify (f : State -> State) : M unit := fun s => (Done tt, f s).
Definition panic {A} (p : PanicValue) : M A := fun s => (Panic p, s).

(** [defer d] placed before [body]: [d] runs when [body] is left, whether
    it returns or panics. *)
Definition with_defer {A} (d : State -> State) (body : M A) : M A :=
  fun s => let '(o, s') := body s in (o, d s').

(** A deferred [recover()]: a panic of [body] is swallowed. *)
Definition recovered (body : M unit) : M unit :=
  fun s => let '(_, s') := body s in (Done tt, s').

Notation "x <- m ;; k" := (bind m (fun x => k))
  (at level 20, m at level 99, k at level 200, only parsing).
Notation "' pat <- m ;; k" := (bind m (fun x => match x with pat => k end))
  (at level 20, pat pattern, m at level 99, k at level 200, only parsing).
Notation "m ;; k" := (bind m (fun _ => k))
  (at level 100, k at level 200, right associativity, only parsing).

(** A method call through the pointer [x.cronTask]: the cron object is
    replaced by its new state and the call is logged under the object's
    serial number.  Through a nil pointer the call panics. *)
Definition cron_call {A} (f : cron.Cron -> cron.Cron * A)
    (ev : nat -> A -> Event) : M A :=
  fun s =>
    match cronTask s with
    | Some c =>
        let '(c', a) := f c in
        (Done a, set_cronTask (Some c') (emit (ev (length (dropped s)) a) s))
    | None => (Panic NilDereference, s)
    end.

(** [x.cronTask = cron.New(...)]: a fresh cron object is made and the
    pointer is overwritten; the object it addressed before, if any, is
    no longer reached. *)
Definition assign_cron_New : M unit :=
  modify (fun s =>
    let old := match cronTask s with Some c => [c] | None => [] end in
    let s := set_dropped (dropped s ++ old) s in
    set_cronTask (Some cron.New) (emit (ev_cron_New (length (dropped s))) s)).

(** The schedule entries that can fire: the entries of every cron object
    whose scheduler loop runs, over all the cron objects made so far. *)
Definition active_entries (s : State) : list cron.Entry :=
  concat (cron.active <$> dropped s) ++
  match cronTask s with Some c => cron.active c | None => [] end.

(** How often the session teardown, [client.Close], was called. *)
Definition is_teardown (e : Event) : bool :=
  match e with ev_client_Close _ => true | _ => false end.
Definition teardowns (l : list Event) : nat := length (filter is_teardown l).

(** The exchanges handed to a router. *)
Definition is_DoProcess (e : Event) : bool :=
  match e with ev_DoProcess _ _ => true | _ => false end.
Definition dispatched (l : list Event) : list Event := filter is_DoProcess l.

(** Events that leave the Active-Operation Counter alone. *)
Definition counter_neutral (e : Event) : Prop :=
  e <> ev_Increment /\ e <> ev_Decrement.

(** What one event adds to the Active-Operation Counter, and what a
    sequence of events adds in all. *)
Definition delta (e : Event) : Z :=
  match e with
  | ev_Increment => 1
  | ev_Decrement => -1
  | _ => 0
  end.

Definition net (l : list Event) : Z := foldr (fun e z => delta e + z) 0 l.

(** What several sequences add in all. *)
Definition sum_net (ts : list (list Event)) : Z :=
  foldr (fun t z => net t + z) 0 ts.

(** A sequence that never dips below the level it ends on. *)
Definition ends_lowest (t : list Event) : Prop :=
  forall p q, t = p ++ q -> net t <= net p.

(** The events of one operation that pairs the counter: the increment
    first, the decrement last, nothing that touches the counter between
    them. *)
Definition bracketed (t : list Event) : Prop :=
  exists mid, t = ev_Increment :: mid ++ [ev_Decrement] /\
              Forall counter_neutral mid.

(** [interleaving ts l]: [l] is a merge of the event sequences [ts] of
    operations that run at the same time, each sequence in its own
    order. *)
Inductive interleaving : list (list Event) -> list Event -> Prop :=
  | interleaving_done ts :
      Forall (fun t => t = []) ts -> interleaving ts []
  | interleaving_step ts1 e t ts2 l :
      interleaving (ts1 ++ t :: ts2) l ->
      interleaving (ts1 ++ (e :: t) :: ts2) (e :: l).

(** The state without its log, to compare what two states hold. *)
Definition forget_log (s : State) : State :=
  mkState (Config s) (Router s) (cronTask s) (taskId s) (isInit s) (client s)
          (activeOperations s) (dropped s) []
          (RuleConfig_Logger s).

(** A cron object whose scheduler loop does not run. *)
Definition stopped (c : cron.Cron) : Prop := cron.running c = false.

(** What holds of the cron objects in every state the methods reach: the
    objects the adapter no longer points to are stopped, and the one it
    points to has at most one entry. *)
Definition sched_inv (s : State) : Prop :=
  Forall stopped (dropped s) /\
  forall c, cronTask s = Some c -> (length (cron.entries c) <= 1)%nat.

(** The calls a host makes on the adapter, and the firing of its
    schedule. *)
Inductive Call : Type :=
  | call_Start
  | call_Close
  | call_AddRouter (r : option endpointApi.Router)
  | call_RemoveRouter (id : string)
  | call_tick.

(** The state after [n] calls of a method in a row. *)
Definition calls {A} (m : M A) (n : nat) (s : State) : State :=
  Nat.iter n (fun s => snd (m s)) s.

(** The value of the Active-Operation Counter after each event of a log,
    starting from [n]. *)
Fixpoint counter_values (n : Z) (l : list Event) : list Z :=
  match l with
  | [] => []
  | ev_Increment :: l' => (n + 1) :: counter_values (n + 1) l'
  | ev_Decrement :: l' => (n - 1) :: counter_values (n - 1) l'
  | _ :: l' => n :: counter_values n l'
  end.

Section WithEnv.
Context `{Env}.

(** *** The embedded SharedNode and GracefulShutdown *)

(** Modelled from the spec: rulego's [base.SharedNode] is not among the
    source files.  Section 4.1: the connection is built lazily by the
    first acquire; acquire never builds a new connection while a live
    one exists; a failed construction returns the error and leaves
    nothing behind, so that a later acquire tries again.  The
    construction is the [initClient] closure handed to [InitWithClose],
    that is [NewOpcUaClient] on the configuration. *)
Definition SharedNode_GetSafely : M (result Client) :=
  c <- gets client ;;
  match c with
  | Some c => ret (Ok c)
  | None =>
      cfg <- gets Config ;;
      modify (emit ev_NewOpcUaClient) ;;
      match NewOpcUaClient cfg with
      | Ok c => modify (set_client (Some c)) ;; ret (Ok c)
      | Err err => ret (Err err)
      end
  end.

(** The cleanup closure handed to [InitWithClose]:
    [if client != nil { return client.Close(ctx) }; return nil]. *)
Definition closeFunc (c : option Client) : M (option error) :=
  match c with
  | Some c => modify (emit (ev_client_Close c)) ;; ret (client_Close c)
  | None => ret None
  end.

(** Modelled from the spec: [SharedNode.InitWithClose] with its
    [initNow] argument.  It marks the node initialised and registers
    the two closures; with [initNow] it acquires at once and returns
    the error of that attempt. *)
Definition SharedNode_InitWithClose (initNow : bool) : M (option error) :=
  modify (set_isInit true) ;;
  if initNow then
    r <- SharedNode_GetSafely ;;
    match r with
    | Ok _ => ret None
    | Err err => ret (Some err)
    end
  else ret None.

(** Modelled from the spec: [SharedNode.Close].  Section 4.1: close
    hands the live connection to the cleanup closure and forgets it;
    without a live connection (none was ever built, or it was already
    closed) it does nothing and returns no error. *)
Definition SharedNode_Close : M (option error) :=
  c <- gets client ;;
  match c with
  | Some _ =>
      err <- closeFunc c ;;
      modify (set_client None) ;;
      ret err
  | None => ret None
  end.

(** Modelled from the spec: [GracefulShutdown.IncrementActiveOperations]
    and [DecrementActiveOperations] of rulego are not among the source
    files.  Sections 3 and 4.4: the counter is an integer, incremented
    when an operation begins and decremented when it ends. *)
Definition IncrementActiveOperations (s : State) : State :=
  set_activeOperations (activeOperations s + 1) (emit ev_Increment s).
Definition DecrementActiveOperations (s : State) : State :=
  set_activeOperations (activeOperations s - 1) (emit ev_Decrement s).

(** [x.Printf]: [if x.RuleConfig.Logger != nil { x.RuleConfig.Logger.Printf(format, v...) }].
    The one value the callers format is an error. *)
Definition Printf (format : string) (err : error) : M unit :=
  logger <- gets RuleConfig_Logger ;;
  if logger then modify (emit (ev_Printf format err)) else ret tt.

(** *** Methods of [OpcUa] *)

(** [OpcUa.Close]. *)
Definition Close : M (option error) :=
  id <- gets taskId ;;
  ct <- gets cronTask ;;
  (* if x.taskId != 0 && x.cronTask != nil { x.cronTask.Remove(x.taskId) } *)
  (if bool_decide (id ≠ 0) && bool_decide (is_Some ct) then
     cron_call (fun c => (cron.Remove id c, tt)) (fun n _ => ev_cron_Remove n id)
   else ret tt) ;;
  (* if x.cronTask != nil { x.cronTask.Stop() } *)
  (if bool_decide (is_Some ct) then
     cron_call (fun c => (cron.Stop c, tt)) (fun n _ => ev_cron_Stop n)
   else ret tt) ;;
  (* _ = x.SharedNode.Close() *)
  SharedNode_Close ;;
  ret None.

(** [OpcUa.AddRouter]; the [router] argument is an interface value,
    [None] when it is nil. *)
Definition AddRouter (router : option endpointApi.Router) : M (string * option error) :=
  match router with
  | None => ret (EmptyString, Some (errors_New "router cannot be nil"))
  | Some r =>
      cur <- gets Router ;;
      match cur with
      | Some _ => ret (EmptyString, Some (errors_New "duplicate router"))
      | None => modify (set_Router (Some r)) ;; ret (endpointApi.GetId r, None)
      end
  end.

(** [OpcUa.RemoveRouter]; [x.Lock()] and the deferred [x.Unlock()] guard
    the assignment against other goroutines and do nothing else. *)
Definition RemoveRouter (routerId : string) : M (option error) :=
  modify (set_Router None) ;; ret None.

(** [OpcUa.readNodes]. *)
Definition readNodes (router : endpointApi.Router) : M (option error) :=
  modify IncrementActiveOperations ;;
  with_defer DecrementActiveOperations (
    r <- SharedNode_GetSafely ;;
    match r with
    | Err err => Printf "get shared client error %v " err ;; ret (Some err)
    | Ok c =>
        ids <- gets (fun s => NodeIds (Config s)) ;;
        modify (emit (ev_Read c ids)) ;;
        match opcuaClient_Read c ids with
        | Err err => Printf "read nodes error %v " err ;; ret (Some err)
        | Ok (data, _) =>
            let exchange := {| endpointApi.In_data := data; endpointApi.Out_data := data |} in
            modify (emit (ev_DoProcess router exchange)) ;;
            match DoProcess router exchange with
            | Some p => panic p
            | None => ret None
            end
        end
    end).

(** The function registered with [AddFunc]:
    [if x.Router != nil { _ = x.readNodes(x.Router) }]. *)
Definition job : M unit :=
  r <- gets Router ;;
  match r with
  | Some router => readNodes router ;; ret tt
  | None => ret tt
  end.

(** One firing of the schedule: the cron object was built with
    [cron.WithChain(cron.Recover(...))], so the job runs under a
    deferred recover. *)
Definition tick : M unit := recovered job.

(** [OpcUa.Start].  The error of [InitWithClose] is stored in [err] and
    then overwritten by that of [AddFunc]. *)
Definition Start : M (option error) :=
  (* if !x.SharedNode.IsInit() { err = x.SharedNode.InitWithClose(...) } *)
  init <- gets isInit ;;
  (if init then ret None else SharedNode_InitWithClose true) ;;
  (* if x.cronTask != nil { x.cronTask.Stop() } *)
  ct <- gets cronTask ;;
  (if bool_decide (is_Some ct) then
     cron_call (fun c => (cron.Stop c, tt)) (fun n _ => ev_cron_Stop n)
   else ret tt) ;;
  (* x.cronTask = cron.New(...) *)
  assign_cron_New ;;
  (* eid, err := x.cronTask.AddFunc(x.Config.Interval, func() {...}) *)
  spec <- gets (fun s => Interval (Config s)) ;;
  '(eid, err) <- cron_call (cron.AddFunc cron_Parse spec)
                   (fun n r => ev_cron_AddFunc n spec (fst r)) ;;
  (* x.taskId = eid *)
  modify (set_taskId eid) ;;
  (* x.cronTask.Start() *)
  cron_call (fun c => (cron.Start c, tt)) (fun n _ => ev_cron_Start n) ;;
  ret err.

(** *** Sequences of calls *)

(** The state a call leaves behind, whatever it returned. *)
Definition perform (c : Call) (s : State) : State :=
  match c with
  | call_Start => snd (Start s)
  | call_Close => snd (Close s)
  | call_AddRouter r => snd (AddRouter r s)
  | call_RemoveRouter id => snd (RemoveRouter id s)
  | call_tick => snd (tick s)
  end.

(** The calls of [cs] one after the other, first to last. *)
Definition run (cs : list Call) (s : State) : State :=
  foldl (fun s c => perform c s) s cs.

End WithEnv.

End Endpoint.

(** * Mock collaborators

    Concrete collaborators on which the embedded code is run: a transport
    that answers per node id, a JSON encoder that, like encoding/json,
    refuses floats that are not finite, and a cron parser. *)

Module Mock.
Import ua opcuaClient.

Definition dquote : string := String "034"%char EmptyString.

(** [strconv.Quote] on text that needs no escaping. *)
Definition Quote (s : string) : string := dquote +:+ s +:+ dquote.

Definition is_finite (f : spec_float) : bool :=
  match f with
  | S754_zero _ | S754_finite _ _ _ => true
  | S754_infinity _ | S754_nan => false
  end.

Definition json_supported (d : Data) : bool :=
  is_finite (FloatValue d) &&
  match Value d with
  | any_float64 f => is_finite f
  | _ => true
  end.

(** The encoder: the node ids of the readings, quoted, in order; an
    [UnsupportedValueError] when a reading holds NaN or an infinity. *)
Definition Marshal (l : list Data) : result string :=
  if forallb json_supported l then
    Ok ("[" +:+ ReadNode.join_space (Quote ∘ NodeId <$> l) +:+ "]")
  else Err (UnsupportedValueError "json: unsupported value").

Definition float_of_any (v : any) : option spec_float :=
  match v with
  | any_float64 f => Some f
  | any_int n =>
      Some (if n =? 0 then S754_zero false
            else S754_finite (n <? 0) (Z.to_pos (Z.abs n)) 0)
  | _ => None
  end.

Definition Error (c : StatusCode) : string :=
  if c =? StatusBadNodeIDUnknown then "StatusBadNodeIDUnknown (0x80340000)"
  else if c =? StatusBadUserAccessDenied then "StatusBadUserAccessDenied (0x801F0000)"
  else "StatusBad".

(** The entry the batched read prepares for a requested id. *)
Definition prepared (id : string) : Data :=
  {| DisplayName := id; NodeId := id; RecordTime := 0; SourceTime := 0;
     Value := any_nil; Quality := 0; FloatValue := S754_zero false;
     Timestamp := 0 |}.

(** The answer of the mock server for one node id. *)
Definition answer (id : string) : option DataValue :=
  if bool_decide (id = "ns=2;s=Tag1") then
    Some {| ua.Value := Some (any_int 42); Status := StatusOK;
            SourceTimestamp := 10; ServerTimestamp := 11 |}
  else if bool_decide (id = "ns=2;s=Tag3") then
    Some {| ua.Value := Some (any_float64 S754_nan); Status := StatusOK;
            SourceTimestamp := 30; ServerTimestamp := 31 |}
  else if bool_decide (id = "ns=2;s=Tag4") then
    Some {| ua.Value := None; Status := StatusBadUserAccessDenied;
            SourceTimestamp := 0; ServerTimestamp := 0 |}
  else if bool_decide (id = "ns=2;s=Tag5") then
    Some {| ua.Value := None; Status := StatusOK;
            SourceTimestamp := 50; ServerTimestamp := 51 |}
  else if bool_decide (id = "nil") then None
  else
    Some {| ua.Value := None; Status := StatusBadNodeIDUnknown;
            SourceTimestamp := 0; ServerTimestamp := 0 |}.

(** The mock server as a protocol client that never fails. *)
Definition batch : Batch :=
  {| batch_error := fun _ => None; slot := fun _ id => answer id |}.

Definition response (ids : list string) : ReadResponse :=
  {| Results := answer <$> ids |}.

Definition Read (c : nat) (ids : list string) : result (list Data * ReadResponse) :=
  Ok (prepared <$> ids, response ids).

(** Requests: one good and one bad node; two bad nodes; a good node
    whose value is NaN; a good node and a slot answered with nil; a node
    whose status is good and whose data value carries no value. *)
Definition empty_ids : list string := ["ns=2;s=Tag5"].
Definition partial_ids : list string := ["ns=2;s=Tag1"; "ns=2;s=Tag2"].
Definition failed_ids : list string := ["ns=2;s=Tag2"; "ns=2;s=Tag4"].
Definition nan_ids : list string := ["ns=2;s=Tag3"].
Definition nil_ids : list string := ["ns=2;s=Tag1"; "nil"].

(** A transport that has lost the connection. *)
Definition Read_dropped (c : nat) (ids : list string)
  : result (list Data * ReadResponse) :=
  Err (errors_New "EOF").

(** The environment of the read node for a message whose payload decodes
    to [ids], over the transport [read]. *)
Definition ReadNode_env (ids : list string)
    (read : nat -> list string -> result (list Data * ReadResponse))
  : ReadNode.Env :=
  {| ReadNode.SharedNode_Get := Ok 1%nat;
     ReadNode.json_Unmarshal := fun _ => Ok ids;
     ReadNode.opcuaClient_Read := read;
     ReadNode.json_Marshal := Marshal;
     ReadNode.StatusCode_Error := Error;
     ReadNode.coerce_float := float_of_any;
     ReadNode.time_Now := fun i => 1000 + Z.of_nat i;
     ReadNode.strconv_Quote := Quote |}.

Definition msg : RuleMsg := {| MsgType := "TEST"; MsgData := "ids" |}.

(** The environment of the endpoint: connecting succeeds, every interval
    but the empty one parses, the router never panics. *)
Definition Endpoint_env
    (read : nat -> list string -> result (list Data * ReadResponse))
  : Endpoint.Env :=
  {| Endpoint.NewOpcUaClient := fun _ => Ok 1%nat;
     Endpoint.opcuaClient_Read := read;
     Endpoint.cron_Parse := fun spec =>
       if bool_decide (spec = EmptyString)
       then Some (errors_New "empty spec string") else None;
     Endpoint.DoProcess := fun _ _ => None;
     Endpoint.client_Close := fun _ => None |}.

Definition router : endpointApi.Router := {| endpointApi.GetId := "r1" |}.

End Mock.

(** * Reading the log of the endpoint *)

Module EndpointLog.

(** The connect attempts recorded in a log. *)
Definition is_connect (e : Endpoint.Event) : bool :=
  match e with Endpoint.ev_NewOpcUaClient => true | _ => false end.
Definition connects (l : list Endpoint.Event) : list Endpoint.Event :=
  filter is_connect l.

(** The calls that detach the Route. *)
Definition is_RemoveRouter (c : Endpoint.Call) : bool :=
  match c with Endpoint.call_RemoveRouter _ => true | _ => false end.

End EndpointLog.

(** * The client the read node keeps for itself *)

Module ReadNodeClient.

Definition Client : Type := nat.

(** [NewOpcUaClient n] is what [opcuaClient.DefaultHolder(x.Config).NewOpcUaClient()]
    returns on the connect attempt number [n] of the node (counting from
    0). *)
Class Env : Type := {
  NewOpcUaClient : nat -> result Client
}.

(** The [client] field of [ReadNode], with a record of what was done to
    the outside: [connects] counts the connect attempts made so far and
    [closes] lists the handles [Close] was called on, oldest first. *)
Record Node : Type := mkNode {
  client : option Client;
  connects : nat;
  closes : list Client
}.

(** [ReadNode.New]: no client yet. *)
Definition New : Node := {| client := None; connects := 0; closes := [] |}.

(** The two calls that touch the client. *)
Inductive Call : Type :=
  | call_initClient
  | call_Destroy.

Section WithEnv.
Context `{Env}.

(** [ReadNode.initClient].  The lock is taken between the two tests of
    [x.client]; a single caller finds the same value both times. *)
Definition initClient (x : Node) : result Client * Node :=
  match client x with
  | Some c => (Ok c, x)
  | None =>
      match client x with
      | Some c => (Ok c, x)
      | None =>
          match NewOpcUaClient (connects x) with
          | Err err =>
              (Err err,
               {| client := None; connects := S (connects x); closes := closes x |})
          | Ok c =>
              (Ok c,
               {| client := Some c; connects := S (connects x); closes := closes x |})
          end
      end
  end.

(** [ReadNode.Destroy]; what [client.Close] returns is discarded. *)
Definition Destroy (x : Node) : Node :=
  match client x with
  | Some c => {| client := None; connects := connects x; closes := closes x ++ [c] |}
  | None => x
  end.

(** The node after [n] calls of [initClient] in a row. *)
Definition initClients (n : nat) (x : Node) : Node :=
  Nat.iter n (fun x => snd (initClient x)) x.

(** The node after [n] calls of [Destroy] in a row. *)
Definition Destroys (n : nat) (x : Node) : Node := Nat.iter n Destroy x.

(** The node after a sequence of calls, first to last. *)
Definition perform (c : Call) (x : Node) : Node :=
  match c with
  | call_initClient => snd (initClient x)
  | call_Destroy => Destroy x
  end.

Definition run (cs : list Call) (x : Node) : Node :=
  foldl (fun x c => perform c x) x cs.

(** The clients the first [n] connect attempts have opened, in order. *)
Definition opened (n : nat) : list Client :=
  omap (fun k => match NewOpcUaClient k with Ok c => Some c | Err _ => None end)
       (seq 0 n).

End WithEnv.

End ReadNodeClient.

(** * The request and response messages of the endpoint *)

Module textproto.

(** [textproto.MIMEHeader], a [map[string][]string]. *)
Definition MIMEHeader : Type := gmap string (list string).

End textproto.

Module message.

(** encoding/json on the two kinds of value the messages serialise: a
    slice of readings, and a byte slice ([None] is the nil slice). *)
Class Env : Type := {
  Marshal_data : list opcuaClient.Data -> result string;
  Marshal_bytes : option string -> result string
}.

Definition OPC_UA_DATA_MSG_TYPE : string := "OPC_UA_DATA".

(** [types.NewMsg(0, OPC_UA_DATA_MSG_TYPE, types.JSON, types.NewMetadata(), data)]. *)
Definition NewMsg (data : string) : RuleMsg :=
  {| MsgType := OPC_UA_DATA_MSG_TYPE; MsgData := data |}.

(** [string(b)] for a byte slice; the nil slice gives the empty string. *)
Definition string_of (b : option string) : string :=
  match b with Some text => text | None => EmptyString end.

(** The calls that can change a message. *)
Inductive Call : Type :=
  | call_Headers
  | call_SetMsg (m : option RuleMsg)
  | call_GetMsg
  | call_SetStatusCode (n : Z)
  | call_SetBody (b : option string)
  | call_SetError (e : option error).

Definition is_SetMsg (c : Call) : bool :=
  match c with call_SetMsg _ => true | _ => false end.
Definition is_SetBody (c : Call) : bool :=
  match c with call_SetBody _ => true | _ => false end.

End message.

Module RequestMessage.
Import message.

(** The [RequestMessage] struct; a nil map, slice or pointer is [None]. *)
Record struct : Type := mkRequestMessage {
  headers : option textproto.MIMEHeader;
  body : option string;
  data : list opcuaClient.Data;
  msg : option RuleMsg;
  statusCode : Z;
  err : option error
}.

Definition set_headers (h : option textproto.MIMEHeader) (r : struct) : struct :=
  mkRequestMessage h (body r) (data r) (msg r) (statusCode r) (err r).
Definition set_body (b : option string) (r : struct) : struct :=
  mkRequestMessage (headers r) b (data r) (msg r) (statusCode r) (err r).
Definition set_msg (m : option RuleMsg) (r : struct) : struct :=
  mkRequestMessage (headers r) (body r) (data r) m (statusCode r) (err r).
Definition set_statusCode (n : Z) (r : struct) : struct :=
  mkRequestMessage (headers r) (body r) (data r) (msg r) n (err r).

(** [&RequestMessage{data: data}], as [readNodes] makes it. *)
Definition of_data (d : list opcuaClient.Data) : struct :=
  {| headers := None; body := None; data := d; msg := None;
     statusCode := 0; err := None |}.

Section WithEnv.
Context `{Env}.

(** [Body]: the serialisation of [r.data]; an error is printed to the log
    and the nil slice returned.  The second component is what was
    printed. *)
Definition Body (r : struct) : option string * list error :=
  match Marshal_data (data r) with
  | Ok b => (Some b, [])
  | Err e => (None, [e])
  end.

(** [Headers]: a nil map is replaced by an empty one first. *)
Definition Headers (r : struct) : textproto.MIMEHeader * struct :=
  match headers r with
  | Some h => (h, r)
  | None => (∅, set_headers (Some ∅) r)
  end.

Definition From (r : struct) : string := EmptyString.
Definition GetParam (r : struct) (key : string) : string := EmptyString.

Definition SetMsg (m : option RuleMsg) (r : struct) : struct := set_msg m r.

(** [GetMsg]: a nil [r.msg] is first replaced by a new message whose
    payload is [string(r.Body())]. *)
Definition GetMsg (r : struct) : RuleMsg * struct * list error :=
  match msg r with
  | Some m => (m, r, [])
  | None =>
      let '(b, printed) := Body r in
      let m := NewMsg (string_of b) in
      (m, set_msg (Some m) r, printed)
  end.

Definition SetStatusCode (n : Z) (r : struct) : struct := set_statusCode n r.
Definition SetBody (b : option string) (r : struct) : struct := set_body b r.

(** [SetError] has an empty body. *)
Definition SetError (e : option error) (r : struct) : struct := r.
Definition GetError (r : struct) : option error := err r.

(** The message a call leaves behind. *)
Definition perform (c : Call) (r : struct) : struct :=
  match c with
  | call_Headers => snd (Headers r)
  | call_SetMsg m => SetMsg m r
  | call_GetMsg => snd (fst (GetMsg r))
  | call_SetStatusCode n => SetStatusCode n r
  | call_SetBody b => SetBody b r
  | call_SetError e => SetError e r
  end.

Definition run (cs : list Call) (r : struct) : struct :=
  foldl (fun r c => perform c r) r cs.

End WithEnv.

End RequestMessage.

Module ResponseMessage.
Import message.

(** The [ResponseMessage] struct. *)
Record struct : Type := mkResponseMessage {
  headers : option textproto.MIMEHeader;
  body : option string;
  data : list opcuaClient.Data;
  msg : option RuleMsg;
  statusCode : Z;
  err : option error
}.

Definition set_headers (h : option textproto.MIMEHeader) (r : struct) : struct :=
  mkResponseMessage h (body r) (data r) (msg r) (statusCode r) (err r).
Definition set_body (b : option string) (r : struct) : struct :=
  mkResponseMessage (headers r) b (data r) (msg r) (statusCode r) (err r).
Definition set_msg (m : option RuleMsg) (r : struct) : struct :=
  mkResponseMessage (headers r) (body r) (data r) m (statusCode r) (err r).
Definition set_statusCode (n : Z) (r : struct) : struct :=
  mkResponseMessage (headers r) (body r) (data r) (msg r) n (err r).

(** The same message with other readings in it. *)
Definition with_data (d : list opcuaClient.Data) (r : struct) : struct :=
  mkResponseMessage (headers r) (body r) d (msg r) (statusCode r) (err r).

(** [&ResponseMessage{data: data}], as [readNodes] makes it. *)
Definition of_data (d : list opcuaClient.Data) : struct :=
  {| headers := None; body := None; data := d; msg := None;
     statusCode := 0; err := None |}.

Section WithEnv.
Context `{Env}.

(** [Body]: the serialisation of [r.body] (not of [r.data]). *)
Definition Body (r : struct) : option string * list error :=
  match Marshal_bytes (body r) with
  | Ok b => (Some b, [])
  | Err e => (None, [e])
  end.

Definition Headers (r : struct) : textproto.MIMEHeader * struct :=
  match headers r with
  | Some h => (h, r)
  | None => (∅, set_headers (Some ∅) r)
  end.

Definition From (r : struct) : string := EmptyString.
Definition GetParam (r : struct) (key : string) : string := EmptyString.

Definition SetMsg (m : option RuleMsg) (r : struct) : struct := set_msg m r.

Definition GetMsg (r : struct) : RuleMsg * struct * list error :=
  match msg r with
  | Some m => (m, r, [])
  | None =>
      let '(b, printed) := Body r in
      let m := NewMsg (string_of b) in
      (m, set_msg (Some m) r, printed)
  end.

Definition SetStatusCode (n : Z) (r : struct) : struct := set_statusCode n r.
Definition SetBody (b : option string) (r : struct) : struct := set_body b r.
Definition getBody (r : struct) : option string := body r.

(** [SetError] has an empty body. *)
Definition SetError (e : option error) (r : struct) : struct := r.
Definition GetError (r : struct) : option error := err r.

Definition perform (c : Call) (r : struct) : struct :=
  match c with
  | call_Headers => snd (Headers r)
  | call_SetMsg m => SetMsg m r
  | call_GetMsg => snd (fst (GetMsg r))
  | call_SetStatusCode n => SetStatusCode n r
  | call_SetBody b => SetBody b r
  | call_SetError e => SetError e r
  end.

Definition run (cs : list Call) (r : struct) : struct :=
  foldl (fun r c => perform c r) r cs.

End WithEnv.

End ResponseMessage.

(** * More mock collaborators *)

Module Fixture.

(** A server that refuses the first connect attempt and accepts the
    later ones, handing out a new handle each time. *)
Definition node_env : ReadNodeClient.Env :=
  {| ReadNodeClient.NewOpcUaClient := fun n =>
       match n with
       | O => Err (errors_New "connection refused")
       | S _ => Ok (100 + n)%nat
       end |}.

(** An encoder for byte slices in the manner of encoding/json: [null]
    for the nil slice, the quoted text otherwise. *)
Definition message_env : message.Env :=
  {| message.Marshal_data := Mock.Marshal;
     message.Marshal_bytes := fun b =>
       match b with
       | None => Ok "null"
       | Some text => Ok (Mock.Quote text)
       end |}.

(** An endpoint environment in which the server cannot be reached. *)
Definition unreachable_env : Endpoint.Env :=
  {| Endpoint.NewOpcUaClient := fun _ => Err (errors_New "connection refused");
     Endpoint.opcuaClient_Read := Mock.Read;
     Endpoint.cron_Parse := fun spec =>
       if bool_decide (spec = EmptyString)
       then Some (errors_New "empty spec string") else None;
     Endpoint.DoProcess := fun _ _ => None;
     Endpoint.client_Close := fun _ => None |}.

(** An endpoint environment whose router panics. *)
Definition panicking_env : Endpoint.Env :=
  {| Endpoint.NewOpcUaClient := fun _ => Ok 1%nat;
     Endpoint.opcuaClient_Read := Mock.Read;
     Endpoint.cron_Parse := fun _ => None;
     Endpoint.DoProcess := fun _ _ => Some (PanicOther "router");
     Endpoint.client_Close := fun _ => None |}.

(** The default adapter with an interval the parser rejects. *)
Definition bad_interval : Endpoint.State :=
  {| Endpoint.Config :=
       {| Endpoint.Server := "opc.tcp://localhost:4840"; Endpoint.Policy := "None";
          Endpoint.Mode := "none"; Endpoint.Auth := "anonymous";
          Endpoint.Username := ""; Endpoint.Password := "";
          Endpoint.CertFile := ""; Endpoint.CertKeyFile := "";
          Endpoint.Interval := ""; Endpoint.NodeIds := [] |};
     Endpoint.Router := None; Endpoint.cronTask := None; Endpoint.taskId := 0;
     Endpoint.isInit := false; Endpoint.client := None;
     Endpoint.activeOperations := 0; Endpoint.dropped := []; Endpoint.log := [];
     Endpoint.RuleConfig_Logger := false |}.

(** What the decoding loop leaves of the two-identifier request. *)
Definition partial_loop : ReadNode.Loop :=
  Eval vm_compute in
    match @ReadNode.decode (Mock.ReadNode_env Mock.partial_ids Mock.Read)
            (Mock.prepared <$> Mock.partial_ids) (Mock.response Mock.partial_ids) with
    | Done st => st
    | Panic _ => {| ReadNode.data := []; ReadNode.errs := []; ReadNode.succ := false |}
    end.

(** The result the mock server gives for the first identifier. *)
Definition good_result : ua.DataValue :=
  {| ua.Value := Some (ua.any_int 42); ua.Status := ua.StatusOK;
     ua.SourceTimestamp := 10; ua.ServerTimestamp := 11 |}.

(** An adapter that holds a client and has the default configuration. *)
Definition connected : Endpoint.State := Endpoint.set_client (Some 1%nat) Endpoint.New.

End Fixture.

(** * Properties of the decoding loop of [ReadNode.OnMsg] *)

Section ReadNode_loop.
Import ua opcuaClient ReadNode.
Context `{Env}.

Lemma status_failed_false_iff (r : DataValue) :
  status_failed (Some r) = false <-> Status r = StatusOK.
Proof.
  unfold status_failed. rewrite negb_false_iff. apply Z.eqb_eq.
Qed.

Lemma status_failed_true_iff (o : option DataValue) :
  status_failed o = true <-> exists r, o = Some r /\ Status r <> StatusOK.
Proof.
  destruct o as [r|]; simpl.
  - rewrite negb_true_iff, Z.eqb_neq. split.
    + intros Hr. by exists r.
    + by intros (r' & [= <-] & Hr).
  - split; [done | by intros (r & ? & _)].
Qed.

Lemma NodeId_reading i di r v : NodeId (reading i di r v) = NodeId di.
Proof.
  unfold reading, ParseValue. simpl. by destruct (coerce_float _).
Qed.

Lemma DisplayName_reading i di r v : DisplayName (reading i di r v) = DisplayName di.
Proof.
  unfold reading, ParseValue. simpl. by destruct (coerce_float _).
Qed.

(** The reading built from a result carries that result, field by
    field. *)
Lemma reading_decoded_from i di r v :
  ua.Value r = Some v -> decoded_from i di r (reading i di r v).
Proof.
  intros Hv. unfold decoded_from, reading, ParseValue. simpl.
  destruct (coerce_float v); simpl; by rewrite Hv.
Qed.

Lemma decodable_is_Some (results : list (option DataValue)) :
  Forall decodable results -> Forall is_Some results.
Proof.
  intros Hall. eapply Forall_impl; [exact Hall|].
  intros [r|]; [by eexists | done].
Qed.

(** The shapes an iteration can take. *)
Lemma loop_body_cases i result st :
  (exists r, result = Some r /\ Status r <> StatusOK /\
             loop_body i result st =
               Done (if (length (errs st) <? 10)%nat
                     then {| data := data st;
                             errs := errs st ++ [StatusCode_Error (Status r)];
                             succ := succ st |}
                     else st)) \/
  (exists r v di, result = Some r /\ Status r = StatusOK /\
             ua.Value r = Some v /\ data st !! i = Some di /\
             loop_body i result st =
               Done {| data := <[i:=reading i di r v]> (data st);
                       errs := errs st; succ := true |}) \/
  (exists p, loop_body i result st = Panic p /\
             ~ (decodable result /\ (i < length (data st))%nat) /\
             (result = None -> p = NilDereference) /\
             ((i < length (data st))%nat -> p = NilDereference) /\
             (p = NilDereference \/
              (p = IndexOutOfRange i (length (data st)) /\
               (length (data st) <= i)%nat))).
Proof.
  unfold loop_body. destruct result as [r|]; simpl.
  - destruct (Status r =? StatusOK) eqn:E; simpl.
    + apply Z.eqb_eq in E. destruct (ua.Value r) as [v|] eqn:Hv.
      * destruct (data st !! i) as [di|] eqn:Hi.
        -- right; left. by exists r, v, di.
        -- right; right. apply lookup_ge_None in Hi.
           eexists; split; [done|].
           split; [intros [_ ?]; lia|split; [done|split; [lia|]]].
           right. split; [done | lia].
      * right; right. eexists; split; [done|].
        split; [|split; [done|split; [done|by left]]].
        intros [Hd _]. destruct (Hd E) as [v Hv']. congruence.
    + apply Z.eqb_neq in E. left. exists r. repeat split; try done.
      by destruct (length (errs st) <? 10)%nat.
  - right; right. eexists; split; [done|].
    split; [|split; [done|split; [done|by left]]].
    by intros [? _].
Qed.

(** The slice of error texts starts with length 10, so the guard
    [len(errs) < 10] never holds and nothing is ever appended. *)
Lemma range_from_errs results : forall i st st',
  (10 <= length (errs st))%nat ->
  range_from i results st = Done st' -> errs st' = errs st.
Proof.
  induction results as [|result rest IH]; intros i st st' Hlen Hrun; simpl in Hrun.
  - by inversion Hrun.
  - destruct (loop_body_cases i result st)
      as [(r & _ & _ & Hb) | [(r & v & di & _ & _ & _ & _ & Hb) | (p & Hb & _)]];
      rewrite Hb in Hrun; simpl in Hrun; [| |done].
    + destruct (length (errs st) <? 10)%nat eqn:E.
      * apply Nat.ltb_lt in E. lia.
      * by apply IH in Hrun.
    + by apply IH in Hrun.
Qed.

(** The loop overwrites slots in place: the number of positions is kept. *)
Lemma range_from_length results : forall i st st',
  range_from i results st = Done st' -> length (data st') = length (data st).
Proof.
  induction results as [|result rest IH]; intros i st st' Hrun; simpl in Hrun.
  - by inversion Hrun.
  - destruct (loop_body_cases i result st)
      as [(r & _ & _ & Hb) | [(r & v & di & _ & _ & _ & _ & Hb) | (p & Hb & _)]];
      rewrite Hb in Hrun; simpl in Hrun; [| |done].
    + apply IH in Hrun. rewrite Hrun. by destruct (length (errs st) <? 10)%nat.
    + apply IH in Hrun. rewrite Hrun. simpl. apply length_insert.
Qed.

(** With every result one the loop can pass and one position per result,
    the loop completes. *)
Lemma range_from_Done results : forall i st,
  Forall decodable results ->
  (i + length results <= length (data st))%nat ->
  exists st', range_from i results st = Done st'.
Proof.
  induction results as [|result rest IH]; intros i st Hall Hlen; simpl.
  - by eexists.
  - apply Forall_cons in Hall as [Hhead Hrest]. simpl in Hlen.
    destruct (loop_body_cases i result st)
      as [(r & _ & _ & Hb) | [(r & v & di & _ & _ & _ & _ & Hb) | (p & _ & Hno & _)]].
    + rewrite Hb; simpl; apply IH; [done|].
      destruct (length (errs st) <? 10)%nat; simpl; lia.
    + rewrite Hb; simpl; apply IH; [done|]. simpl. rewrite length_insert. lia.
    + destruct Hno. split; [done | lia].
Qed.

(** With one position per result and a nil result among them, the loop
    ends in the nil dereference. *)
Lemma range_from_nil results : forall i st,
  None ∈ results ->
  (i + length results <= length (data st))%nat ->
  range_from i results st = Panic NilDereference.
Proof.
  induction results as [|result rest IH]; intros i st Hin Hlen; simpl.
  - by apply elem_of_nil in Hin.
  - simpl in Hlen.
    destruct (loop_body_cases i result st)
      as [(r & -> & _ & Hb) | [(r & v & di & -> & _ & _ & _ & Hb) | (p & Hb & _ & _ & Hp & _)]];
      rewrite Hb; simpl.
    + apply elem_of_cons in Hin as [?|Hin]; [done|]. apply IH; [done|].
      destruct (length (errs st) <? 10)%nat; simpl; lia.
    + apply elem_of_cons in Hin as [?|Hin]; [done|]. apply IH; [done|].
      simpl. rewrite length_insert. lia.
    + rewrite Hp; [done | lia].
Qed.

(** With a nil result anywhere, the loop does not complete. *)
Lemma range_from_nil_panics results : forall i st,
  None ∈ results -> exists p, range_from i results st = Panic p.
Proof.
  induction results as [|result rest IH]; intros i st Hin; simpl.
  - by apply elem_of_nil in Hin.
  - destruct (loop_body_cases i result st)
      as [(r & -> & _ & Hb) | [(r & v & di & -> & _ & _ & _ & Hb) | (p & Hb & _)]];
      rewrite Hb; simpl; [| |by eexists].
    + apply elem_of_cons in Hin as [?|Hin]; [done|]. by apply IH.
    + apply elem_of_cons in Hin as [?|Hin]; [done|]. by apply IH.
Qed.

(** The flag [succ] is raised exactly by the results that do not take the
    failure branch. *)
Lemma range_from_succ results : forall i st st',
  range_from i results st = Done st' ->
  succ st' = succ st || existsb (fun r => negb (status_failed r)) results.
Proof.
  induction results as [|result rest IH]; intros i st st' Hrun; simpl in Hrun.
  - inversion Hrun. simpl. by rewrite orb_false_r.
  - destruct (loop_body_cases i result st)
      as [(r & -> & Hr & Hb) | [(r & v & di & -> & Hr & _ & _ & Hb) | (p & Hb & _)]];
      rewrite Hb in Hrun; simpl in Hrun; [| |done].
    + apply IH in Hrun. rewrite Hrun.
      assert (status_failed (Some r) = true) as Hf.
      { destruct (status_failed (Some r)) eqn:E; [done|].
        by apply status_failed_false_iff in E. }
      cbn [existsb]. rewrite Hf. simpl.
      by destruct (length (errs st) <? 10)%nat.
    + apply IH in Hrun. rewrite Hrun.
      apply status_failed_false_iff in Hr.
      cbn [existsb]. rewrite Hr. simpl. by rewrite orb_true_r.
Qed.

(** Slot by slot: position [j] is rewritten from the result at the same
    index, and from nothing else. *)
Lemma range_from_lookup results : forall i st st',
  range_from i results st = Done st' ->
  forall j,
    data st' !! j =
      (fun old => if decide (i <= j)%nat
                  then slot_after j old (results !! (j - i)%nat)
                  else old) <$> data st !! j.
Proof.
  induction results as [|result rest IH]; intros i st st' Hrun j; simpl in Hrun.
  - inversion Hrun; subst. destruct (data st' !! j); simpl; [|done].
    by destruct (decide _).
  - destruct (loop_body_cases i result st)
      as [(r & -> & Hr & Hb) | [(r & v & di & -> & Hr & Hv & Hdi & Hb) | (p & Hb & _)]];
      rewrite Hb in Hrun; simpl in Hrun; [| |done].
    + rewrite (IH _ _ _ Hrun j).
      replace (data (if (length (errs st) <? 10)%nat then _ else st)) with (data st)
        by (by destruct (length (errs st) <? 10)%nat).
      destruct (data st !! j) as [old|]; simpl; [|done]. f_equal.
      destruct (decide (S i <= j)%nat) as [Hle|Hnle].
      * rewrite decide_True by lia.
        replace (j - i)%nat with (S (j - S i)) by lia. done.
      * destruct (decide (i <= j)%nat) as [Hij|]; [|done].
        assert (j = i) as -> by lia. rewrite Nat.sub_diag. simpl.
        apply Z.eqb_neq in Hr. by rewrite Hr.
    + rewrite (IH _ _ _ Hrun j). simpl.
      destruct (decide (j = i)) as [->|Hne].
      * rewrite list_lookup_insert_eq by (by eapply lookup_lt_Some).
        rewrite Hdi. simpl. f_equal.
        rewrite decide_False by lia. rewrite decide_True by lia.
        rewrite Nat.sub_diag. simpl.
        apply Z.eqb_eq in Hr. by rewrite Hr, Hv.
      * rewrite list_lookup_insert_ne by done.
        destruct (data st !! j) as [old|]; simpl; [|done]. f_equal.
        destruct (decide (S i <= j)%nat) as [Hle|Hnle].
        -- rewrite decide_True by lia.
           replace (j - i)%nat with (S (j - S i)) by lia. done.
        -- rewrite decide_False by lia. done.
Qed.

(** The loop completes exactly when every result is one it can pass and,
    if its status is good, has an entry of [data] at its index. *)
Lemma range_from_completes results : forall i st,
  (exists st', range_from i results st = Done st') <->
  (forall k o, results !! k = Some o ->
     decodable o /\
     (status_failed o = false -> (i + k < length (data st))%nat)).
Proof.
  induction results as [|result rest IH]; intros i st; simpl.
  - split; [by intros _ k o | intros _; by eexists].
  - destruct (loop_body_cases i result st)
      as [(r & -> & Hr & Hb) | [(r & v & di & -> & Hr & Hv & Hdi & Hb) | (p & Hb & Hno & _)]];
      rewrite Hb; simpl.
    + rewrite (IH (S i)).
      replace (length (data (if (length (errs st) <? 10)%nat then _ else st)))
        with (length (data st)) by (by destruct (length (errs st) <? 10)%nat).
      split.
      * intros Hrest [|k] o Hk; simpl in Hk.
        -- inversion Hk; subst. split; [by intros ?|].
           intros Hf. by apply status_failed_false_iff in Hf.
        -- destruct (Hrest k o Hk) as [Hd Hi].
           split; [done|]. intros Hf. specialize (Hi Hf). lia.
      * intros Hall k o Hk.
        destruct (Hall (S k) o Hk) as [Hd Hi].
        split; [done|]. intros Hf. specialize (Hi Hf). lia.
    + rewrite (IH (S i)). simpl. rewrite length_insert.
      apply lookup_lt_Some in Hdi. split.
      * intros Hrest [|k] o Hk; simpl in Hk.
        -- inversion Hk; subst. split; [|lia]. intros _. rewrite Hv. by eexists.
        -- destruct (Hrest k o Hk) as [Hd Hi].
           split; [done|]. intros Hf. specialize (Hi Hf). lia.
      * intros Hall k o Hk.
        destruct (Hall (S k) o Hk) as [Hd Hi].
        split; [done|]. intros Hf. specialize (Hi Hf). lia.
    + split; [by intros [? ?]|]. intros Hall. destruct Hno.
      destruct (Hall 0%nat result eq_refl) as [Hd Hi]. split; [done|].
      rewrite Nat.add_0_r in Hi. apply Hi.
      destruct (status_failed result) eqn:Hf; [|done].
      apply status_failed_true_iff in Hf as (r & -> & Hr).
      unfold loop_body in Hb. simpl in Hb.
      apply Z.eqb_neq in Hr. rewrite Hr in Hb. simpl in Hb.
      by destruct (length (errs st) <? 10)%nat.
Qed.

(** A loop that does not complete ends in the nil dereference or in an
    index out of the range of [data]. *)
Lemma range_from_Panic results : forall i st p,
  range_from i results st = Panic p ->
  p = NilDereference \/
  exists j, p = IndexOutOfRange j (length (data st)) /\ (length (data st) <= j)%nat.
Proof.
  induction results as [|result rest IH]; intros i st p Hrun; simpl in Hrun; [done|].
  destruct (loop_body_cases i result st)
    as [(r & _ & _ & Hb) | [(r & v & di & _ & _ & _ & _ & Hb) | (p1 & Hb & _ & _ & _ & Hp)]];
    rewrite Hb in Hrun; simpl in Hrun.
  - apply IH in Hrun.
    by replace (length (data (if (length (errs st) <? 10)%nat then _ else st)))
      with (length (data st)) in Hrun by (by destruct (length (errs st) <? 10)%nat).
  - apply IH in Hrun. simpl in Hrun. by rewrite length_insert in Hrun.
  - inversion Hrun; subst. destruct Hp as [?|[? ?]]; [by left|]. right. by exists i.
Qed.

End ReadNode_loop.

(** * Properties of [ReadNode.OnMsg] *)

Section ReadNode_OnMsg.
Import ua opcuaClient ReadNode.
Context `{Env}.

Lemma decode_lookup data0 resp st :
  decode data0 resp = Done st ->
  forall j, data st !! j = (fun old => slot_after j old (Results resp !! j)) <$> data0 !! j.
Proof.
  intros Hrun j. unfold decode in Hrun.
  rewrite (range_from_lookup _ _ _ _ Hrun j). simpl.
  destruct (data0 !! j); simpl; [|done].
  by rewrite Nat.sub_0_r.
Qed.

Lemma decode_Done data0 resp :
  Forall decodable (Results resp) ->
  (length (Results resp) <= length data0)%nat ->
  exists st, decode data0 resp = Done st /\
             length (data st) = length data0 /\
             errs st = replicate 10 EmptyString.
Proof.
  intros Hall Hlen. unfold decode.
  destruct (range_from_Done (Results resp) 0
              {| data := data0; errs := replicate 10 EmptyString; succ := false |})
    as [st Hst]; [done | simpl; lia |].
  exists st. split; [done|]. split.
  - by rewrite (range_from_length _ _ _ _ Hst).
  - apply range_from_errs in Hst; [done | simpl; lia].
Qed.

(** What a completed loop leaves at the index of a result, given the
    entry that was there. *)
Lemma decode_slot data0 resp st i r di :
  decode data0 resp = Done st ->
  Results resp !! i = Some (Some r) ->
  data0 !! i = Some di ->
  exists d, data st !! i = Some d /\
            (Status r = StatusOK -> decoded_from i di r d) /\
            (Status r <> StatusOK -> d = di).
Proof.
  intros Hrun Hr Hdi.
  exists (slot_after i di (Some (Some r))). split.
  - by rewrite (decode_lookup _ _ _ Hrun i), Hdi, Hr.
  - simpl. destruct (Status r =? StatusOK) eqn:E.
    + apply Z.eqb_eq in E. split; [|done]. intros _.
      assert (is_Some (ua.Value r)) as [v Hv].
      { unfold decode in Hrun.
        destruct (proj1 (range_from_completes (Results resp) 0 _)
                    (ex_intro _ st Hrun) i (Some r) Hr) as [Hd _].
        by apply Hd. }
      rewrite Hv. by apply reading_decoded_from.
    + apply Z.eqb_neq in E. by split.
Qed.

Lemma some_or_nil (results : list (option DataValue)) :
  Forall is_Some results \/ None ∈ results.
Proof.
  induction results as [|[r|] rest [IH|IH]].
  - by left.
  - left. constructor; [by eexists | done].
  - right. by apply elem_of_cons; right.
  - right. by apply elem_of_cons; left.
  - right. by apply elem_of_cons; left.
Qed.

Lemma exists_ok_iff (results : list (option DataValue)) :
  Forall is_Some results ->
  existsb (fun r => negb (status_failed r)) results = true <->
  exists i r, results !! i = Some (Some r) /\ Status r = StatusOK.
Proof.
  induction 1 as [|result rest [r ->] _ IH]; simpl.
  - split; [done|]. by intros (i & r & Hi & _).
  - rewrite orb_true_iff, IH, negb_true_iff.
    change (negb (Status r =? StatusOK) = false) with (status_failed (Some r) = false).
    rewrite status_failed_false_iff. split.
    + intros [Hr | (i & r' & Hi & Hr')].
      * by exists 0%nat, r.
      * by exists (S i), r'.
    + intros ([|i] & r' & Hi & Hr'); simpl in Hi.
      * left. by inversion Hi; subst.
      * right. by exists i, r'.
Qed.

(** [OnMsg] once the client, the node ids and the response are there. *)
Lemma OnMsg_after_read msg c ids data0 resp :
  SharedNode_Get = Ok c ->
  json_Unmarshal (MsgData msg) = Ok ids ->
  opcuaClient_Read c ids = Ok (data0, resp) ->
  OnMsg msg =
    Outcome_bind (decode data0 resp) (fun st =>
      if succ st then
        match json_Marshal (data st) with
        | Err err => Done (TellFailure msg err)
        | Ok dbyte => Done (TellSuccess (SetData msg dbyte))
        end
      else Done (TellFailure msg (Errorf_read_failed (errs st)))).
Proof.
  intros Hget Hids Hread. unfold OnMsg. by rewrite Hget, Hids, Hread.
Qed.

Lemma decode_succ data0 resp st :
  Forall is_Some (Results resp) ->
  decode data0 resp = Done st ->
  succ st = true <-> exists i r, Results resp !! i = Some (Some r) /\ Status r = StatusOK.
Proof.
  intros Hall Hrun. unfold decode in Hrun.
  rewrite (range_from_succ _ _ _ _ Hrun). simpl. by apply exists_ok_iff.
Qed.

(** The batched read of the spec hands over one entry and one slot per
    identifier. *)
Lemma Read_aligned b ids data0 resp :
  opcuaClient.Read b ids = Ok (data0, resp) ->
  data0 = entry <$> ids /\
  Results resp = imap (slot b) ids /\
  length data0 = length ids /\
  length (Results resp) = length ids.
Proof.
  unfold opcuaClient.Read. destruct (batch_error b ids); [done|].
  intros [= <- <-]. simpl. by rewrite length_fmap, length_imap.
Qed.

End ReadNode_OnMsg.

(** * The read node: error text, partial success, threshold, alignment *)

Section ReadNode_claims.
Import ua opcuaClient ReadNode.
Context `{Env}.

(** C4, as amended.  A read over K identifiers whose transport-level call
    succeeds, every slot of whose response is filled (no nil result) and
    every good result of which carries a value, leaves a sequence of
    exactly K positions aligned by index to the request: the entry at
    position i carries the i-th identifier as node id and display name,
    and it is the reading decoded from slot i of the protocol response
    whenever that slot's status is good: its record time, source time,
    value and quality are those of the result in slot i and its timestamp
    is the clock at slot i (for a bad status the entry stays as the
    batched read made it).  That sequence is what is serialised on the
    success path.  The batched read is the one of the spec, over any
    protocol client. *)
Theorem C4_readings_aligned_by_index msg c ids b data0 resp :
  SharedNode_Get = Ok c ->
  json_Unmarshal (MsgData msg) = Ok ids ->
  opcuaClient_Read c ids = opcuaClient.Read b ids ->
  opcuaClient.Read b ids = Ok (data0, resp) ->
  Forall decodable (Results resp) ->
  exists st,
    decode data0 resp = Done st /\
    length (data st) = length ids /\
    length (Results resp) = length ids /\
    (forall i id, ids !! i = Some id ->
       exists r d,
         Results resp !! i = Some (Some r) /\
         slot b i id = Some r /\
         data st !! i = Some d /\
         NodeId d = id /\
         DisplayName d = id /\
         (Status r = StatusOK -> decoded_from i (entry id) r d) /\
         (Status r <> StatusOK -> d = entry id)) /\
    OnMsg msg =
      Done (if succ st then
              match json_Marshal (data st) with
              | Err err => TellFailure msg err
              | Ok dbyte => TellSuccess (SetData msg dbyte)
              end
            else TellFailure msg (Errorf_read_failed (errs st))).
Proof.
  intros Hget Hids Hread Hspec Hall.
  destruct (Read_aligned b ids data0 resp Hspec) as (Hdata & Hres & Hlen0 & Hlen).
  destruct (decode_Done data0 resp Hall) as (st & Hst & Hl & _); [lia|].
  exists st. split; [done|]. split; [lia|]. split; [done|]. split.
  - intros i id Hi.
    assert (data0 !! i = Some (entry id)) as Hdi.
    { by rewrite Hdata, list_lookup_fmap, Hi. }
    assert (Results resp !! i = Some (slot b i id)) as Ho.
    { by rewrite Hres, list_lookup_imap, Hi. }
    assert (is_Some (slot b i id)) as [r Hr].
    { eapply (Forall_lookup_1 _ _ _ _ (decodable_is_Some _ Hall)); eauto. }
    rewrite Hr in Ho.
    destruct (decode_slot data0 resp st i r (entry id) Hst Ho Hdi)
      as (d & Hd & Hgood & Hbad).
    exists r, d.
    split; [done|]. split; [done|]. split; [done|].
    split; [|split; [|by split]].
    + destruct (decide (Status r = StatusOK)) as [E|E].
      * by destruct (Hgood E) as (_ & -> & _).
      * by rewrite (Hbad E).
    + destruct (decide (Status r = StatusOK)) as [E|E].
      * by destruct (Hgood E) as (-> & _).
      * by rewrite (Hbad E).
  - rewrite (OnMsg_after_read msg c ids data0 resp) by congruence.
    rewrite Hst. simpl. destruct (succ st); [|done].
    by destruct (json_Marshal (data st)).
Qed.


(** C3, as amended.  For a read whose transport-level call succeeds (no
    nil result, every good result carrying a value, a prepared entry for
    every result) the message is forwarded on the success path if and only
    if at least one node's status is good and the serialisation of the
    readings succeeds; if every node's status is bad the failure path is
    taken with the read-failed error. *)
Theorem C3_success_iff_a_node_is_good_and_encoded msg c ids data0 resp :
  SharedNode_Get = Ok c ->
  json_Unmarshal (MsgData msg) = Ok ids ->
  opcuaClient_Read c ids = Ok (data0, resp) ->
  (length (Results resp) <= length data0)%nat ->
  Forall decodable (Results resp) ->
  exists st,
    decode data0 resp = Done st /\
    ((exists msg', OnMsg msg = Done (TellSuccess msg')) <->
     (exists i r, Results resp !! i = Some (Some r) /\ Status r = StatusOK) /\
     (exists dbyte, json_Marshal (data st) = Ok dbyte)) /\
    ((forall i r, Results resp !! i = Some (Some r) -> Status r <> StatusOK) ->
     OnMsg msg = Done (TellFailure msg (Errorf_read_failed (errs st)))).
Proof.
  intros Hget Hids Hread Hlen Hall.
  destruct (decode_Done data0 resp Hall) as (st & Hst & _ & _); [lia|].
  exists st. split; [done|].
  rewrite (OnMsg_after_read msg c ids data0 resp) by done.
  rewrite Hst. simpl.
  pose proof (decode_succ _ _ _ (decodable_is_Some _ Hall) Hst) as Hsucc.
  destruct (succ st) eqn:Es; split.
  - split.
    + intros [msg' Hm]. split; [by apply Hsucc|].
      destruct (json_Marshal (data st)) as [b|e]; [by eexists | done].
    + intros [_ [b ->]]. by eexists.
  - intros Hbad. destruct Hsucc as [(i & r & Hi & Hr) _]; [done|].
    by destruct (Hbad i r Hi).
  - split.
    + by intros [msg' Hm].
    + intros [Hok _]. apply Hsucc in Hok. done.
  - done.
Qed.

(** C10.  A nil result is not caught by the guard of the failure branch,
    so it takes the branch that builds a reading, and there the result is
    dereferenced: the iteration ends in the nil dereference.  So decoding
    completes only if no result is nil: a nil result anywhere makes the
    loop panic, and with a prepared entry for every result the panic is
    the nil dereference.  Conversely, with a prepared entry for every
    result, no nil result and a value in every good result, decoding
    completes. *)
Theorem C10_nil_result_is_dereferenced data0 resp :
  status_failed None = false /\
  (forall i st, loop_body i None st = Panic NilDereference) /\
  ((exists st, decode data0 resp = Done st) -> Forall is_Some (Results resp)) /\
  (None ∈ Results resp -> exists p, decode data0 resp = Panic p) /\
  ((length (Results resp) <= length data0)%nat ->
   None ∈ Results resp -> decode data0 resp = Panic NilDereference) /\
  ((length (Results resp) <= length data0)%nat ->
   Forall decodable (Results resp) -> exists st, decode data0 resp = Done st).
Proof.
  split; [done|]. split; [done|].
  assert (None ∈ Results resp -> exists p, decode data0 resp = Panic p) as Hnil.
  { intros Hin. unfold decode. by apply range_from_nil_panics. }
  split; [|split; [done|split]].
  - intros [st Hst]. destruct (some_or_nil (Results resp)) as [?|Hin]; [done|].
    destruct (Hnil Hin) as [p Hp]. congruence.
  - intros Hlen Hin. unfold decode. apply range_from_nil; [done | simpl; lia].
  - intros Hlen Hall. destruct (decode_Done data0 resp Hall Hlen) as (st & Hst & _).
    by exists st.
Qed.

(** The read node on a transport error: when the batched read returns an
    operation-level error, [OnMsg] tells failure with exactly that error
    and the message as it came in: nothing is decoded and no reading is
    put into it. *)
Lemma OnMsg_transport_error msg c ids err :
  SharedNode_Get = Ok c ->
  json_Unmarshal (MsgData msg) = Ok ids ->
  opcuaClient_Read c ids = Err err ->
  OnMsg msg = Done (TellFailure msg err).
Proof.
  intros Hget Hids Hread. unfold OnMsg. by rewrite Hget, Hids, Hread.
Qed.

(** Whatever the response, a completed loop leaves the slice of error
    texts as it was made: ten empty strings. *)
Lemma decode_errs data0 resp :
  match decode data0 resp with
  | Done st => errs st = replicate 10 EmptyString
  | Panic _ => True
  end.
Proof.
  destruct (decode data0 resp) as [st|p] eqn:Hrun; [|done].
  unfold decode in Hrun. apply range_from_errs in Hrun; [done | simpl; lia].
Qed.

End ReadNode_claims.

(** * Properties of the endpoint *)

Section Endpoint_properties.
Import ua opcuaClient Endpoint.
Context `{Env}.

Lemma teardowns_app l1 l2 : teardowns (l1 ++ l2) = (teardowns l1 + teardowns l2)%nat.
Proof. unfold teardowns. by rewrite filter_app, length_app. Qed.

Lemma teardowns_singleton e :
  teardowns [e] = if is_teardown e then 1%nat else 0%nat.
Proof. by destruct e. Qed.

Lemma dispatched_app l1 l2 : dispatched (l1 ++ l2) = dispatched l1 ++ dispatched l2.
Proof. unfold dispatched. by rewrite filter_app. Qed.

Lemma forget_log_eq s1 s2 :
  Config s1 = Config s2 -> Router s1 = Router s2 -> cronTask s1 = cronTask s2 ->
  taskId s1 = taskId s2 -> isInit s1 = isInit s2 -> client s1 = client s2 ->
  activeOperations s1 = activeOperations s2 -> dropped s1 = dropped s2 ->
  RuleConfig_Logger s1 = RuleConfig_Logger s2 ->
  forget_log s1 = forget_log s2.
Proof. destruct s1, s2; simpl; intros; by subst. Qed.

Lemma Remove_Remove id c : cron.Remove id (cron.Remove id c) = cron.Remove id c.
Proof.
  unfold cron.Remove. simpl. f_equal.
  induction (cron.entries c) as [|e l IH]; [done|].
  rewrite filter_cons. destruct (decide (cron.ID e ≠ id)) as [Hne|Heq].
  - rewrite filter_cons, decide_True by done. by rewrite IH.
  - done.
Qed.

(** What [Close] returns and what it leaves behind. *)
Lemma Close_effect s :
  let s' := snd (Close s) in
  fst (Close s) = Done None /\
  Config s' = Config s /\ Router s' = Router s /\
  cronTask s' =
    (fun c => cron.Stop (if bool_decide (taskId s ≠ 0)
                         then cron.Remove (taskId s) c else c)) <$> cronTask s /\
  taskId s' = taskId s /\ isInit s' = isInit s /\ client s' = None /\
  activeOperations s' = activeOperations s /\ dropped s' = dropped s /\
  teardowns (log s') =
    (teardowns (log s) + match client s with Some _ => 1 | None => 0 end)%nat.
Proof.
  destruct s as [cfg r ct id init cl n dr lg lgr].
  unfold Close, SharedNode_Close, closeFunc, cron_call, bind, gets, modify, ret.
  simpl. destruct ct as [c|], cl as [k|]; simpl;
    destruct (bool_decide (id ≠ 0)); simpl;
    rewrite ?teardowns_app, ?teardowns_singleton; simpl; repeat split;
    try done; lia.
Qed.

Lemma Close_keeps_Logger s :
  RuleConfig_Logger (snd (Close s)) = RuleConfig_Logger s.
Proof.
  destruct s as [cfg r ct id init cl n dr lg lgr].
  unfold Close, SharedNode_Close, closeFunc, cron_call, bind, gets, modify, ret.
  simpl. destruct ct as [c|], cl as [k|]; simpl;
    by destruct (bool_decide (id ≠ 0)).
Qed.

(** A second [Close] finds the entry removed, the scheduler stopped and
    the connection gone: it changes nothing and tears nothing down. *)
Lemma Close_Close s :
  let s1 := snd (Close s) in
  let s2 := snd (Close s1) in
  forget_log s2 = forget_log s1 /\ teardowns (log s2) = teardowns (log s1).
Proof.
  intros s1 s2.
  destruct (Close_effect s) as (_ & Hc & Hr & Hct & Hid & Hi & Hcl & Ha & Hd & _).
  destruct (Close_effect s1) as (_ & Hc' & Hr' & Hct' & Hid' & Hi' & Hcl' & Ha' & Hd' & Ht').
  fold s1 in Hc, Hr, Hct, Hid, Hi, Hcl, Ha, Hd.
  fold s2 in Hc', Hr', Hct', Hid', Hi', Hcl', Ha', Hd', Ht'.
  split.
  - apply forget_log_eq; try congruence; [|apply Close_keeps_Logger].
    rewrite Hct', Hct, Hid. destruct (cronTask s) as [c|]; simpl; [|done].
    f_equal. destruct (bool_decide (taskId s ≠ 0)); [|done].
    unfold cron.Stop. simpl. f_equal.
    change (cron.entries (cron.Remove (taskId s) (cron.Remove (taskId s) c)) =
            cron.entries (cron.Remove (taskId s) c)).
    by rewrite Remove_Remove.
  - rewrite Ht', Hcl. lia.
Qed.

Lemma calls_S {A} (m : M A) n s : calls m (S n) s = snd (m (calls m n s)).
Proof. done. Qed.

(** C6.  [Close] returns no error however often it is called and whatever
    the state (no schedule, no connection, already closed).  Over any
    number of calls in a row, the session teardown is invoked once if a
    connection was live at the first call and never if there was none;
    every call after the first leaves the adapter as the first one left
    it; and on an adapter that was never started nor connected [Close]
    changes nothing at all. *)
Theorem C6_Close_idempotent s n :
  fst (Close (calls Close n s)) = Done None /\
  teardowns (log (calls Close (S n) s)) =
    (teardowns (log s) + match client s with Some _ => 1 | None => 0 end)%nat /\
  forget_log (calls Close (S (S n)) s) = forget_log (calls Close 1 s) /\
  teardowns (log (calls Close (S (S n)) s)) = teardowns (log (calls Close 1 s)) /\
  Close New = (Done None, New).
Proof.
  split; [apply Close_effect|].
  split.
  { induction n as [|n IH].
    - apply Close_effect.
    - rewrite calls_S.
      destruct (Close_effect (calls Close (S n) s)) as (_ & _ & _ & _ & _ & _ & _ & _ & _ & Ht).
      rewrite Ht, IH. rewrite (calls_S Close n s).
      destruct (Close_effect (calls Close n s)) as (_ & _ & _ & _ & _ & _ & -> & _).
      lia. }
  split; [|split; [|done]].
  - induction n as [|n IH].
    + apply (Close_Close s).
    + rewrite <- IH. rewrite (calls_S Close (S (S n)) s), (calls_S Close (S n) s).
      apply (Close_Close (calls Close (S n) s)).
  - induction n as [|n IH].
    + apply (Close_Close s).
    + rewrite <- IH. rewrite (calls_S Close (S (S n)) s), (calls_S Close (S n) s).
      apply (Close_Close (calls Close (S n) s)).
Qed.

(** C9.  The adapter has one slot for its Route.  [AddRouter] with a nil
    router returns the error "router cannot be nil"; with a Route already
    attached it returns the error "duplicate router", and in both cases
    the adapter, the attached Route included, stays as it was; into the
    empty slot the router is stored and its id returned.  A tick that
    fires while no Route is attached does nothing: the callback returns
    normally, as does the firing, and the state is unchanged. *)
Theorem C9_one_route_and_idle_tick s r :
  AddRouter None s = (Done (EmptyString, Some (errors_New "router cannot be nil")), s) /\
  (is_Some (Router s) ->
     AddRouter (Some r) s = (Done (EmptyString, Some (errors_New "duplicate router")), s)) /\
  (Router s = None ->
     AddRouter (Some r) s = (Done (endpointApi.GetId r, None), set_Router (Some r) s) /\
     job s = (Done tt, s) /\
     tick s = (Done tt, s)).
Proof.
  split; [done|]. split.
  - intros [r0 Hr]. unfold AddRouter, bind, gets. simpl. by rewrite Hr.
  - intros Hr. unfold tick, recovered, job, AddRouter, bind, gets, modify, ret.
    simpl. by rewrite Hr.
Qed.

Lemma counter_values_bracket n mid :
  Forall counter_neutral mid -> 0 <= n ->
  Forall (fun k => 0 <= k) (counter_values n (ev_Increment :: mid ++ [ev_Decrement])).
Proof.
  intros Hmid Hn. simpl. constructor; [lia|].
  induction Hmid as [|e mid [Hi Hd] _ IH]; simpl.
  - constructor; [lia | constructor].
  - destruct e; try done; constructor; (lia || done).
Qed.

(** [readNodes], path by path: every way out goes through the deferred
    decrement. *)
Lemma readNodes_bracket router s :
  let s' := snd (readNodes router s) in
  activeOperations s' = activeOperations s /\
  exists mid,
    log s' = log s ++ ev_Increment :: mid ++ [ev_Decrement] /\
    Forall counter_neutral mid.
Proof.
  destruct s as [cfg r ct id init cl n dr lg lgr].
  unfold readNodes, with_defer, SharedNode_GetSafely, Printf, panic,
    IncrementActiveOperations, DecrementActiveOperations, bind, gets, modify, ret.
  simpl.
  destruct cl as [c|]; simpl; [|destruct (NewOpcUaClient cfg) as [c|e0]; simpl].
  1, 2: destruct (opcuaClient_Read c (NodeIds cfg)) as [[d rs]|e1]; simpl;
        [destruct (DoProcess router _) as [pv|]; simpl|].
  all: destruct lgr; simpl.
  all: (split; [lia|]); rewrite <- ?app_assoc; simpl.
  all: match goal with
       | |- exists mid, _ ++ ev_Increment :: ?l = _ /\ _ =>
           let rec init_of l :=
             lazymatch l with
             | [_] => constr:(@nil Event)
             | ?x :: ?l' => let r := init_of l' in constr:(x :: r)
             end in
           let m := init_of l in exists m
       end.
  all: split; [done|]; repeat constructor; done.
Qed.

Lemma counter_values_cons n e l :
  counter_values n (e :: l) = (n + delta e) :: counter_values (n + delta e) l.
Proof. destruct e; simpl; rewrite ?Z.add_0_r; done. Qed.

Lemma net_app l1 l2 : net (l1 ++ l2) = net l1 + net l2.
Proof. induction l1 as [|e l1 IH]; simpl; lia. Qed.

Lemma delta_neutral e : counter_neutral e -> delta e = 0.
Proof. intros [Hi Hd]. by destruct e. Qed.

Lemma net_neutral mid : Forall counter_neutral mid -> net mid = 0.
Proof.
  induction 1 as [|e mid He _ IH]; [done|].
  simpl. rewrite (delta_neutral e He). lia.
Qed.

Lemma ends_lowest_tail e t : ends_lowest (e :: t) -> ends_lowest t.
Proof.
  intros Hok p q ->. specialize (Hok (e :: p) q eq_refl). simpl in Hok. lia.
Qed.

Lemma ends_lowest_nonpos t : ends_lowest t -> net t <= 0.
Proof. intros Hok. apply (Hok [] t eq_refl). Qed.

Lemma closing_prefix mid :
  Forall counter_neutral mid ->
  forall p q, mid ++ [ev_Decrement] = p ++ q -> -1 <= net p.
Proof.
  induction 1 as [|e mid He _ IH]; intros p q Heq.
  - destruct p as [|e' p]; simpl; [lia|].
    simpl in Heq. injection Heq as <- Hp.
    symmetry in Hp. apply app_eq_nil in Hp as [-> _]. simpl. lia.
  - destruct p as [|e' p]; simpl; [lia|].
    simpl in Heq. injection Heq as <- Hp.
    rewrite (delta_neutral e He). specialize (IH p q Hp). lia.
Qed.

Lemma bracketed_net t : bracketed t -> net t = 0.
Proof.
  intros (mid & -> & Hmid). simpl. rewrite net_app, (net_neutral mid Hmid).
  simpl. lia.
Qed.

Lemma bracketed_ends_lowest t : bracketed t -> ends_lowest t.
Proof.
  intros Hb p q Heq. rewrite (bracketed_net t Hb).
  destruct Hb as (mid & -> & Hmid).
  destruct p as [|e p]; simpl; [lia|].
  simpl in Heq. injection Heq as <- Hp.
  pose proof (closing_prefix mid Hmid p q Hp). simpl. lia.
Qed.

Lemma sum_net_app ts1 ts2 : sum_net (ts1 ++ ts2) = sum_net ts1 + sum_net ts2.
Proof. induction ts1 as [|t ts1 IH]; simpl; lia. Qed.

Lemma sum_net_nonpos ts : Forall ends_lowest ts -> sum_net ts <= 0.
Proof.
  induction 1 as [|t ts Ht _ IH]; simpl; [lia|].
  pose proof (ends_lowest_nonpos t Ht). lia.
Qed.

Lemma sum_net_bracketed ts : Forall bracketed ts -> sum_net ts = 0.
Proof.
  induction 1 as [|t ts Ht _ IH]; simpl; [lia|].
  rewrite (bracketed_net t Ht). lia.
Qed.

(** However the event sequences of several operations are merged, the
    counter stays at or above its start plus what the sequences add in
    all, provided no sequence dips below the level it ends on. *)
Lemma interleaving_bound ts l :
  interleaving ts l ->
  Forall ends_lowest ts ->
  forall n, Forall (fun v => n + sum_net ts <= v) (counter_values n l).
Proof.
  induction 1 as [ts Hnil | ts1 e t ts2 l Hl IH]; intros Hok n.
  - constructor.
  - apply Forall_app in Hok as [Hok1 Hok2].
    apply Forall_cons in Hok2 as [Hoke Hok2].
    pose proof (sum_net_nonpos ts1 Hok1) as H1.
    pose proof (sum_net_nonpos ts2 Hok2) as H2.
    pose proof (Hoke [e] t eq_refl) as He. simpl in He.
    rewrite counter_values_cons.
    rewrite sum_net_app. simpl. constructor; [lia|].
    assert (Forall ends_lowest (ts1 ++ t :: ts2)) as Hok'.
    { apply Forall_app. split; [done|]. constructor; [|done].
      by eapply ends_lowest_tail. }
    specialize (IH Hok' (n + delta e)).
    rewrite sum_net_app in IH. simpl in IH.
    eapply Forall_impl; [exact IH|]. simpl. intros v Hv. lia.
Qed.

Lemma interleaving_net ts l : interleaving ts l -> net l = sum_net ts.
Proof.
  induction 1 as [ts Hnil | ts1 e t ts2 l Hl IH].
  - induction Hnil as [|t ts -> _ IH]; [done|].
    change (net [] = net [] + sum_net ts). rewrite <- IH. done.
  - change (delta e + net l = sum_net (ts1 ++ (e :: t) :: ts2)).
    rewrite IH, !sum_net_app.
    change (sum_net ((e :: t) :: ts2)) with (delta e + net t + sum_net ts2).
    change (sum_net (t :: ts2)) with (net t + sum_net ts2). lia.
Qed.

(** C8.  Every execution of [readNodes] increments the Active-Operation
    Counter first and decrements it last, once each, on every way out:
    when acquiring the shared client fails, when the read fails, when the
    exchange is processed, and when processing panics.  So the counter is
    back at its prior value afterwards and, starting from a value that is
    not negative, it is never negative in between; nor is it in any merge
    of the event sequences of several such executions running at the
    same time, which add nothing to it in all. *)
Theorem C8_readNodes_pairs_the_counter router s :
  0 <= activeOperations s ->
  let s' := snd (readNodes router s) in
  activeOperations s' = activeOperations s /\
  (exists t,
     log s' = log s ++ t /\ bracketed t /\
     Forall (fun k => 0 <= k) (counter_values (activeOperations s) t)) /\
  (forall ts l,
     Forall bracketed ts -> interleaving ts l ->
     Forall (fun k => 0 <= k) (counter_values (activeOperations s) l) /\
     net l = 0).
Proof.
  intros Hn s'. destruct (readNodes_bracket router s) as (Ha & mid & Hlog & Hmid).
  split; [done|]. split.
  - exists (ev_Increment :: mid ++ [ev_Decrement]). split; [done|].
    split; [by exists mid|]. by apply counter_values_bracket.
  - intros ts l Hts Hl. split.
    + assert (Forall ends_lowest ts) as Hok.
      { eapply Forall_impl; [exact Hts|]. apply bracketed_ends_lowest. }
      pose proof (interleaving_bound ts l Hl Hok (activeOperations s)) as Hb.
      rewrite (sum_net_bracketed ts Hts) in Hb.
      eapply Forall_impl; [exact Hb|]. simpl. intros v Hv. lia.
    + by rewrite (interleaving_net ts l Hl), (sum_net_bracketed ts Hts).
Qed.

(** The endpoint on a transport error: when the shared client is there
    (or can be built) and the batched read returns an operation-level
    error, [readNodes] returns exactly that error and hands no exchange to
    the router. *)
Lemma readNodes_transport_error router s c err :
  client s = Some c \/ (client s = None /\ NewOpcUaClient (Config s) = Ok c) ->
  opcuaClient_Read c (NodeIds (Config s)) = Err err ->
  fst (readNodes router s) = Done (Some err) /\
  dispatched (log (snd (readNodes router s))) = dispatched (log s).
Proof.
  destruct s as [cfg r ct id init cl n dr lg lgr]. simpl.
  unfold readNodes, with_defer, SharedNode_GetSafely, Printf, panic,
    IncrementActiveOperations, DecrementActiveOperations, bind, gets, modify, ret.
  simpl. intros [-> | [-> Hnew]] Hread; simpl; rewrite ?Hnew; simpl;
    rewrite Hread; simpl.
  all: destruct lgr; simpl.
  all: split; [done|]; rewrite !dispatched_app; simpl.
  all: by rewrite ?app_nil_r.
Qed.

(** [readNodes] touches neither the configuration nor the schedule. *)
Lemma readNodes_keeps router s :
  let s' := snd (readNodes router s) in
  Config s' = Config s /\ cronTask s' = cronTask s /\ dropped s' = dropped s /\
  taskId s' = taskId s /\ Router s' = Router s.
Proof.
  destruct s as [cfg r ct id init cl n dr lg lgr].
  unfold readNodes, with_defer, SharedNode_GetSafely, Printf, panic,
    IncrementActiveOperations, DecrementActiveOperations, bind, gets, modify, ret.
  simpl.
  destruct cl as [c|]; simpl; [|destruct (NewOpcUaClient cfg) as [c|e0]; simpl].
  1, 2: destruct (opcuaClient_Read c (NodeIds cfg)) as [[d rs]|e1]; simpl;
        [destruct (DoProcess router _) as [pv|]; simpl|].
  all: destruct lgr; simpl.
  all: done.
Qed.

Lemma tick_keeps s :
  let s' := snd (tick s) in
  Config s' = Config s /\ cronTask s' = cronTask s /\ dropped s' = dropped s.
Proof.
  unfold tick, recovered, job, bind, gets, ret. simpl.
  destruct (Router s) as [router|]; [|done].
  pose proof (readNodes_keeps router s) as (Hc & Hct & Hd & _).
  destruct (readNodes router s) as [[o|p] s1]; simpl in *; done.
Qed.

(** What [Start] returns and what it leaves behind: the cron object it
    found is stopped and set aside, and a fresh one holds the entry that
    [AddFunc] made of the interval, if the parser accepted it.  The calls
    on the cron objects are made in this order: [Stop] on the old object,
    [New], [AddFunc] and [Start] on the new one. *)
Lemma Start_effect s :
  let s' := snd (Start s) in
  let spec := Interval (Config s) in
  let added := cron.AddFunc cron_Parse spec cron.New in
  let k := (length (dropped s) + match cronTask s with Some _ => 1 | None => 0 end)%nat in
  fst (Start s) = Done (snd (snd added)) /\
  Config s' = Config s /\
  dropped s' = dropped s ++ match cronTask s with Some c => [cron.Stop c] | None => [] end /\
  cronTask s' = Some (cron.Start (fst added)) /\
  taskId s' = fst (snd added) /\
  exists pre,
    Forall (fun e => e = ev_NewOpcUaClient) pre /\
    log s' = log s ++ pre ++
             match cronTask s with
             | Some _ => [ev_cron_Stop (length (dropped s))]
             | None => []
             end ++
             [ev_cron_New k; ev_cron_AddFunc k spec (fst (snd added)); ev_cron_Start k].
Proof.
  destruct s as [cfg r ct id init cl n dr lg lgr].
  unfold Start, SharedNode_InitWithClose, SharedNode_GetSafely, assign_cron_New,
    cron_call, bind, gets, modify, ret.
  simpl.
  destruct init; simpl;
    [|destruct cl as [c0|]; simpl; [|destruct (NewOpcUaClient cfg) as [c0|e0]; simpl]].
  all: destruct ct as [c|]; simpl.
  all: unfold cron.AddFunc; simpl; destruct (cron_Parse (Interval cfg)); simpl.
  all: rewrite ?length_app; simpl; rewrite ?Nat.add_0_r.
  all: repeat (split; [done|]).
  all: first [ exists []; split; [constructor|]; by rewrite <- ?app_assoc
             | exists [ev_NewOpcUaClient]; split; [by repeat constructor|];
               by rewrite <- ?app_assoc ].
Qed.

Lemma no_active (l : list cron.Cron) :
  Forall stopped l -> concat (cron.active <$> l) = [].
Proof.
  induction 1 as [|c l Hc _ IH]; [done|].
  rewrite fmap_cons. cbn [concat]. rewrite IH. unfold cron.active. by rewrite Hc.
Qed.

Lemma Forall_stopped_snoc l (o : option cron.Cron) :
  Forall stopped l ->
  Forall stopped (l ++ match o with Some c => [cron.Stop c] | None => [] end).
Proof.
  intros Hl. apply Forall_app. split; [done|].
  destruct o; by repeat constructor.
Qed.

(** Every call keeps [sched_inv] and the configuration. *)
Lemma perform_keeps c s :
  sched_inv s -> sched_inv (perform c s) /\ Config (perform c s) = Config s.
Proof.
  intros [Hd Hc]. destruct c as [| |r|id|]; simpl.
  - destruct (Start_effect s) as (_ & Hcfg & Hdr & Hct & _).
    split; [|done]. split.
    + rewrite Hdr. by apply Forall_stopped_snoc.
    + intros c. rewrite Hct. intros [= <-]. unfold cron.AddFunc.
      destruct (cron_Parse _); simpl; lia.
  - destruct (Close_effect s) as (_ & Hcfg & _ & Hct & _ & _ & _ & _ & Hdr & _).
    split; [|done]. split; [by rewrite Hdr|].
    intros c. rewrite Hct. destruct (cronTask s) as [c0|]; [|done].
    simpl. intros [= <-]. specialize (Hc c0 eq_refl).
    destruct (bool_decide _); simpl; [|done].
    etrans; [apply length_filter | done].
  - unfold AddRouter, bind, gets, modify, ret. destruct r as [r|]; simpl; [|done].
    destruct (Router s); done.
  - done.
  - destruct (tick_keeps s) as (Hcfg & Hct & Hdr).
    split; [|done]. split; [by rewrite Hdr | by rewrite Hct].
Qed.

Lemma run_keeps cs : forall s,
  sched_inv s -> sched_inv (run cs s) /\ Config (run cs s) = Config s.
Proof.
  induction cs as [|c cs IH]; intros s Hs; [done|].
  simpl. destruct (perform_keeps c s Hs) as [Hinv Hcfg].
  destruct (IH _ Hinv) as [Hinv' Hcfg']. split; [done | congruence].
Qed.

Lemma run_snoc cs c s : run (cs ++ [c]) s = perform c (run cs s).
Proof. unfold run. by rewrite foldl_app. Qed.

Lemma calls_Start_run n s : calls Start n s = run (replicate n call_Start) s.
Proof.
  induction n as [|n IH]; [done|].
  rewrite calls_S, IH.
  replace (replicate (S n) call_Start) with (replicate n call_Start ++ [call_Start]).
  - by rewrite run_snoc.
  - clear. induction n as [|n IH]; [done|]. simpl. by rewrite IH.
Qed.

(** In a state that satisfies [sched_inv] at most one entry can fire. *)
Lemma at_most_one_active s :
  sched_inv s -> (length (active_entries s) <= 1)%nat.
Proof.
  intros [Hd Hc]. unfold active_entries. rewrite (no_active _ Hd). simpl.
  destruct (cronTask s) as [c|]; simpl; [|lia].
  unfold cron.active. destruct (cron.running c); simpl; [by apply Hc | lia].
Qed.

(** Right after a [Start] whose interval the parser accepts, exactly the
    new entry can fire. *)
Lemma one_active_after_Start s :
  sched_inv s -> cron_Parse (Interval (Config s)) = None ->
  active_entries (snd (Start s)) = [{| cron.ID := 1; cron.Spec := Interval (Config s) |}].
Proof.
  intros [Hd _] Hparse.
  destruct (Start_effect s) as (_ & _ & Hdr & Hct & _).
  unfold active_entries. rewrite Hdr, Hct.
  rewrite (no_active _ (Forall_stopped_snoc _ _ Hd)).
  unfold cron.AddFunc. by rewrite Hparse.
Qed.

(** C7.  [Start] on an adapter whose schedule is running first stops the
    cron object of that schedule and only then makes the new one and
    registers the callback with it.  So, for an interval the parser
    accepts: after any sequence of calls that ends with [Start], and in
    particular after any number of [Start] calls in a row, exactly one
    schedule entry can fire; and at no point of any sequence of calls can
    two entries fire. *)
Theorem C7_Start_leaves_one_schedule s cs n :
  sched_inv s ->
  cron_Parse (Interval (Config s)) = None ->
  let entry := {| cron.ID := 1; cron.Spec := Interval (Config s) |} in
  (length (active_entries (run cs s)) <= 1)%nat /\
  active_entries (run (cs ++ [call_Start]) s) = [entry] /\
  active_entries (calls Start (S n) s) = [entry] /\
  (forall c, cronTask s = Some c ->
     let k := length (dropped s) in
     dropped (snd (Start s)) = dropped s ++ [cron.Stop c] /\
     exists pre,
       log (snd (Start s)) =
         log s ++ pre ++
         [ev_cron_Stop k; ev_cron_New (S k);
          ev_cron_AddFunc (S k) (Interval (Config s)) 1; ev_cron_Start (S k)]).
Proof.
  intros Hinv Hparse entry.
  assert (forall cs', active_entries (run (cs' ++ [call_Start]) s) = [entry]) as Hlast.
  { intros cs'. rewrite run_snoc. simpl.
    destruct (run_keeps cs' s Hinv) as [Hinv' Hcfg].
    rewrite one_active_after_Start; [|done|by rewrite Hcfg].
    unfold entry. by rewrite Hcfg. }
  split; [apply at_most_one_active; by apply run_keeps|].
  split; [apply Hlast|]. split.
  - rewrite calls_Start_run.
    replace (replicate (S n) call_Start) with (replicate n call_Start ++ [call_Start]).
    + apply Hlast.
    + clear. induction n as [|n IH]; [done|]. simpl. by rewrite IH.
  - intros c Hc k.
    destruct (Start_effect s) as (_ & _ & Hdr & _ & _ & pre & _ & Hlog).
    rewrite Hc in Hdr, Hlog. split; [done|]. exists pre.
    rewrite Hlog. unfold cron.AddFunc. rewrite Hparse. simpl.
    by rewrite Nat.add_1_r.
Qed.

End Endpoint_properties.

(** * Transport errors abort the read *)

Section Transport_error.
Context {RE : ReadNode.Env} {EE : Endpoint.Env}.

(** C5.  When the batched read returns an operation-level error the
    operation is aborted as a whole.  The read node tells failure with
    exactly that error, the message unchanged, so no reading reaches the
    next node; the endpoint's [readNodes] returns exactly that error and
    hands no exchange, hence no reading, to the router. *)
Theorem C5_transport_error_aborts_the_read msg c ids err router s c' err' :
  ReadNode.SharedNode_Get = Ok c ->
  ReadNode.json_Unmarshal (MsgData msg) = Ok ids ->
  ReadNode.opcuaClient_Read c ids = Err err ->
  Endpoint.client s = Some c' \/
    (Endpoint.client s = None /\ Endpoint.NewOpcUaClient (Endpoint.Config s) = Ok c') ->
  Endpoint.opcuaClient_Read c' (Endpoint.NodeIds (Endpoint.Config s)) = Err err' ->
  ReadNode.OnMsg msg = Done (ReadNode.TellFailure msg err) /\
  fst (Endpoint.readNodes router s) = Done (Some err') /\
  Endpoint.dispatched (Endpoint.log (snd (Endpoint.readNodes router s))) =
    Endpoint.dispatched (Endpoint.log s).
Proof.
  intros Hget Hids Hread Hclient Hread'. split.
  - by apply (OnMsg_transport_error msg c ids err).
  - by apply (readNodes_transport_error router s c' err').
Qed.

End Transport_error.

(** * The code on concrete requests *)

Section Concrete.
Import ua opcuaClient.

(** C1 (defect of the code).  [errs] is made with [make([]string, 10)]:
    ten empty strings, so the guard [len(errs) < 10] never lets a status
    error in.  Whatever the response, a completed loop leaves [errs] as
    ten empty strings.  On a request for two nodes that both fail, with
    the status errors StatusBadNodeIDUnknown and
    StatusBadUserAccessDenied, [OnMsg] tells failure with an error built
    from ten empty strings: its text is the prefix, ten pairs of quotes
    and the closing bracket, and neither status error is in it. *)
Theorem C1_read_failed_error_holds_no_reason :
  (forall (E : ReadNode.Env) data0 resp,
     match ReadNode.decode data0 resp with
     | Done st => ReadNode.errs st = replicate 10 EmptyString
     | Panic _ => True
     end) /\
  @ReadNode.OnMsg (Mock.ReadNode_env Mock.failed_ids Mock.Read) Mock.msg =
    Done (ReadNode.TellFailure Mock.msg (Errorf_read_failed (replicate 10 EmptyString))) /\
  @ReadNode.read_failed_text (Mock.ReadNode_env Mock.failed_ids Mock.Read)
      (replicate 10 EmptyString) =
    "read failed: [" +:+
    ReadNode.join_space (replicate 10 (Mock.dquote +:+ Mock.dquote)) +:+ "] " /\
  (Mock.Error StatusBadNodeIDUnknown ∉ replicate 10 EmptyString) /\
  (Mock.Error StatusBadUserAccessDenied ∉ replicate 10 EmptyString).
Proof.
  split; [intros E data0 resp; apply decode_errs|].
  split; [by vm_compute|]. split; [by vm_compute|].
  split; intros Hin; apply elem_of_replicate in Hin as [Heq _]; by vm_compute in Heq.
Qed.


(** C3 fails as stated.  One identifier whose node is good and whose
    value is NaN: a node's status indicates success, yet the encoder
    refuses the reading and the message goes down the failure path. *)
Lemma C3_counterexample_good_node_yet_failure :
  ~ ((exists msg',
        @ReadNode.OnMsg (Mock.ReadNode_env Mock.nan_ids Mock.Read) Mock.msg =
          Done (ReadNode.TellSuccess msg')) <->
     (exists i r, Results (Mock.response Mock.nan_ids) !! i = Some (Some r) /\
                  Status r = StatusOK)).
Proof.
  intros [_ Hback].
  destruct Hback as [msg' Hmsg].
  - exists 0%nat. eexists. split; [reflexivity | reflexivity].
  - vm_compute in Hmsg. discriminate Hmsg.
Qed.

(** C4 fails as stated.  One identifier whose node answers with a good
    status and a data value that carries no value: the transport-level
    call succeeds and no result is nil, yet the loop dereferences the
    missing Variant, so there is no result at all, let alone one of K
    aligned positions. *)
Lemma C4_counterexample_good_result_without_value :
  opcuaClient.Read Mock.batch Mock.empty_ids =
    Ok (Mock.prepared <$> Mock.empty_ids, Mock.response Mock.empty_ids) /\
  Forall is_Some (Results (Mock.response Mock.empty_ids)) /\
  (exists r, Results (Mock.response Mock.empty_ids) !! 0%nat = Some (Some r) /\
             Status r = StatusOK /\ ua.Value r = None) /\
  @ReadNode.decode (Mock.ReadNode_env Mock.empty_ids Mock.Read)
      (Mock.prepared <$> Mock.empty_ids) (Mock.response Mock.empty_ids) =
    Panic NilDereference /\
  @ReadNode.OnMsg (Mock.ReadNode_env Mock.empty_ids Mock.Read) Mock.msg =
    Panic NilDereference.
Proof.
  split; [reflexivity|].
  split; [repeat constructor; by eexists|].
  split; [eexists; split; [reflexivity | by split]|].
  split; by vm_compute.
Qed.

(** ** The theorems at concrete inputs *)

Lemma decodable_partial :
  Forall ReadNode.decodable (Results (Mock.response Mock.partial_ids)).
Proof.
  constructor; [intros _; by eexists|].
  constructor; [intros Hs; by vm_compute in Hs | constructor].
Defined.

(** C4, as amended, at the two-identifier request. *)
Lemma C4_witness :
  exists st,
    @ReadNode.decode (Mock.ReadNode_env Mock.partial_ids Mock.Read)
        (Mock.prepared <$> Mock.partial_ids) (Mock.response Mock.partial_ids) = Done st /\
    length (ReadNode.data st) = 2%nat.
Proof.
  destruct (@C4_readings_aligned_by_index
              (Mock.ReadNode_env Mock.partial_ids Mock.Read) Mock.msg 1%nat
              Mock.partial_ids Mock.batch
              (Mock.prepared <$> Mock.partial_ids)
              (Mock.response Mock.partial_ids)
              eq_refl eq_refl eq_refl eq_refl decodable_partial)
    as (st & Hst & Hlen & _).
  exists st. split; [exact Hst | exact Hlen].
Defined.


(** C3, as amended, at the two-identifier request. *)
Lemma C3_witness :
  exists st,
    @ReadNode.decode (Mock.ReadNode_env Mock.partial_ids Mock.Read)
        (Mock.prepared <$> Mock.partial_ids) (Mock.response Mock.partial_ids) = Done st.
Proof.
  destruct (@C3_success_iff_a_node_is_good_and_encoded
              (Mock.ReadNode_env Mock.partial_ids Mock.Read) Mock.msg 1%nat
              Mock.partial_ids (Mock.prepared <$> Mock.partial_ids)
              (Mock.response Mock.partial_ids)
              eq_refl eq_refl eq_refl (le_n 2) decodable_partial)
    as (st & Hst & _).
  exists st. exact Hst.
Defined.

(** C10 at a response whose second slot is nil. *)
Lemma C10_witness :
  @ReadNode.decode (Mock.ReadNode_env Mock.nil_ids Mock.Read)
      (Mock.prepared <$> Mock.nil_ids) (Mock.response Mock.nil_ids) =
    Panic NilDereference.
Proof.
  apply (@C10_nil_result_is_dereferenced
           (Mock.ReadNode_env Mock.nil_ids Mock.Read)
           (Mock.prepared <$> Mock.nil_ids) (Mock.response Mock.nil_ids)).
  - simpl. lia.
  - apply elem_of_cons; right. apply elem_of_cons; left. reflexivity.
Defined.

(** C5 over the transport that has lost the connection. *)
Lemma C5_witness :
  @ReadNode.OnMsg (Mock.ReadNode_env Mock.partial_ids Mock.Read_dropped) Mock.msg =
    Done (ReadNode.TellFailure Mock.msg (errors_New "EOF")) /\
  fst (@Endpoint.readNodes (Mock.Endpoint_env Mock.Read_dropped) Mock.router Endpoint.New) =
    Done (Some (errors_New "EOF")).
Proof.
  destruct (@C5_transport_error_aborts_the_read
              (Mock.ReadNode_env Mock.partial_ids Mock.Read_dropped)
              (Mock.Endpoint_env Mock.Read_dropped)
              Mock.msg 1%nat Mock.partial_ids (errors_New "EOF")
              Mock.router Endpoint.New 1%nat (errors_New "EOF")
              eq_refl eq_refl eq_refl (or_intror (conj eq_refl eq_refl)) eq_refl)
    as (H1 & H2 & _).
  split; [exact H1 | exact H2].
Defined.

Lemma sched_inv_New : Endpoint.sched_inv Endpoint.New.
Proof. split; [constructor | intros c Hc; discriminate Hc]. Defined.

(** C7 at a fresh adapter: two [Start] calls in a row. *)
Lemma C7_witness :
  Endpoint.active_entries
    (Endpoint.calls (@Endpoint.Start (Mock.Endpoint_env Mock.Read)) 2 Endpoint.New) =
  [{| cron.ID := 1; cron.Spec := "@every 1m" |}].
Proof.
  apply (@C7_Start_leaves_one_schedule (Mock.Endpoint_env Mock.Read)
           Endpoint.New [Endpoint.call_Start; Endpoint.call_tick] 1
           sched_inv_New eq_refl).
Defined.

(** C8 at a fresh adapter, and over two executions that overlap. *)
Lemma C8_witness :
  Endpoint.activeOperations
    (snd (@Endpoint.readNodes (Mock.Endpoint_env Mock.Read) Mock.router Endpoint.New)) = 0 /\
  Forall (fun k => 0 <= k)
    (Endpoint.counter_values 0
       [Endpoint.ev_Increment; Endpoint.ev_Increment; Endpoint.ev_Decrement;
        Endpoint.ev_Decrement]).
Proof.
  destruct (@C8_readNodes_pairs_the_counter (Mock.Endpoint_env Mock.Read)
              Mock.router Endpoint.New (Z.le_refl 0)) as (Hback & _ & Hmerge).
  split; [exact Hback|].
  assert (Endpoint.bracketed [Endpoint.ev_Increment; Endpoint.ev_Decrement]) as Hb.
  { exists []. split; [reflexivity | constructor]. }
  apply (Hmerge [[Endpoint.ev_Increment; Endpoint.ev_Decrement];
                 [Endpoint.ev_Increment; Endpoint.ev_Decrement]]).
  - constructor; [exact Hb|]. constructor; [exact Hb | constructor].
  - apply (Endpoint.interleaving_step [] _ _ [_]).
    apply (Endpoint.interleaving_step [_] _ _ []).
    apply (Endpoint.interleaving_step [] _ _ [_]).
    apply (Endpoint.interleaving_step [_] _ _ []).
    apply Endpoint.interleaving_done.
    constructor; [reflexivity|]. constructor; [reflexivity | constructor].
Defined.

(** C9 at a fresh adapter, and at one with a Route attached. *)
Lemma C9_witness :
  @Endpoint.tick (Mock.Endpoint_env Mock.Read) Endpoint.New = (Done tt, Endpoint.New) /\
  Endpoint.AddRouter (Some Mock.router)
      (Endpoint.set_Router (Some Mock.router) Endpoint.New) =
    (Done (EmptyString, Some (errors_New "duplicate router")),
     Endpoint.set_Router (Some Mock.router) Endpoint.New).
Proof.
  split.
  - apply (@C9_one_route_and_idle_tick (Mock.Endpoint_env Mock.Read)
             Endpoint.New Mock.router). reflexivity.
  - apply (@C9_one_route_and_idle_tick (Mock.Endpoint_env Mock.Read)
             (Endpoint.set_Router (Some Mock.router) Endpoint.New) Mock.router).
    eexists. reflexivity.
Defined.

End Concrete.

(** * More on the decoding loop and on [OnMsg] *)

Section ReadNode_more.
Import ua opcuaClient ReadNode.
Context `{Env}.

(** X1.  The decoding loop completes exactly when every result is
    non-nil and either has a bad status or carries a value and has an
    entry of [data] at its index: a bad result beyond the end of [data] or
    without a value is harmless, a good one is not.  When the loop does
    not complete it ends in one of two panics: the nil dereference, or an
    index out of the range of [data]. *)
Theorem X1_decode_completes_iff data0 resp :
  ((exists st, decode data0 resp = Done st) <->
   (forall i o, Results resp !! i = Some o ->
      exists r, o = Some r /\
        (Status r <> StatusOK \/
         (is_Some (ua.Value r) /\ (i < length data0)%nat)))) /\
  (forall p, decode data0 resp = Panic p ->
     p = NilDereference \/
     exists j, p = IndexOutOfRange j (length data0) /\ (length data0 <= j)%nat).
Proof.
  split.
  - unfold decode. rewrite range_from_completes. simpl. split.
    + intros Hall i o Hi. destruct (Hall i o Hi) as [Hd Hlt].
      destruct o as [r|]; [|done]. exists r. split; [done|].
      destruct (decide (Status r = StatusOK)) as [E|E]; [|by left].
      right. split; [by apply Hd|]. apply Hlt. by apply status_failed_false_iff.
    + intros Hall i o Hi. destruct (Hall i o Hi) as (r & -> & Hr). split.
      * intros E. by destruct Hr as [?|[? _]].
      * intros Hf. apply status_failed_false_iff in Hf.
        by destruct Hr as [?|[_ ?]].
  - intros p Hp. unfold decode in Hp. by apply range_from_Panic in Hp.
Qed.

(** X2.  Whatever the collaborators do, [OnMsg] ends in one of three ways.
    It tells failure, and then with the message exactly as it came in.  It
    tells success, and then the loop has completed with [succ] raised, the
    message keeps its type and its payload is the serialisation of the
    readings, as many as the batched read handed over.  Or it panics, and
    then it is the decoding loop that panicked. *)
Theorem X2_OnMsg_outcomes msg :
  match OnMsg msg with
  | Done (TellFailure m _) => m = msg
  | Done (TellSuccess m) =>
      MsgType m = MsgType msg /\
      exists c ids data0 resp st,
        SharedNode_Get = Ok c /\
        json_Unmarshal (MsgData msg) = Ok ids /\
        opcuaClient_Read c ids = Ok (data0, resp) /\
        decode data0 resp = Done st /\ succ st = true /\
        length (data st) = length data0 /\
        json_Marshal (data st) = Ok (MsgData m)
  | Panic p =>
      exists c ids data0 resp,
        SharedNode_Get = Ok c /\
        json_Unmarshal (MsgData msg) = Ok ids /\
        opcuaClient_Read c ids = Ok (data0, resp) /\
        decode data0 resp = Panic p
  end.
Proof.
  unfold OnMsg.
  destruct SharedNode_Get as [c|e] eqn:Hget; [|done].
  destruct (json_Unmarshal (MsgData msg)) as [ids|e] eqn:Hids; [|done].
  destruct (opcuaClient_Read c ids) as [[data0 resp]|e] eqn:Hread; [|done].
  destruct (decode data0 resp) as [st|p] eqn:Hrun; simpl.
  - destruct (succ st) eqn:Hs; [|done].
    destruct (json_Marshal (data st)) as [b|e] eqn:Hm; [|done].
    split; [done|]. exists c, ids, data0, resp, st.
    repeat split; try done.
    unfold decode in Hrun. by rewrite (range_from_length _ _ _ _ Hrun).
  - by exists c, ids, data0, resp.
Qed.

(** X3.  A completed loop never changes which node an entry belongs to:
    the node ids and the display names of [data] are, position by
    position, those the batched read handed over.  And it changes an entry
    only at the index of a result whose status is good: entries at the
    index of a bad result, and entries beyond the end of the response,
    stay as they were. *)
Theorem X3_decode_keeps_identities data0 resp st :
  decode data0 resp = Done st ->
  NodeId <$> data st = NodeId <$> data0 /\
  DisplayName <$> data st = DisplayName <$> data0 /\
  (forall j,
     (forall r, Results resp !! j = Some (Some r) -> Status r <> StatusOK) ->
     data st !! j = data0 !! j).
Proof.
  intros Hrun.
  assert (forall (f : Data -> string),
            (forall i di r v, f (reading i di r v) = f di) ->
            f <$> data st = f <$> data0) as Hkeep.
  { intros f Hf. apply list_eq. intros j.
    rewrite !list_lookup_fmap, (decode_lookup _ _ _ Hrun j).
    destruct (data0 !! j) as [old|]; simpl; [|done]. f_equal.
    unfold slot_after. destruct (Results resp !! j) as [[r|]|]; try done.
    destruct (Status r =? StatusOK); [|done].
    destruct (ua.Value r); [apply Hf | done]. }
  split; [apply Hkeep, NodeId_reading|].
  split; [apply Hkeep, DisplayName_reading|].
  intros j Hbad. rewrite (decode_lookup _ _ _ Hrun j).
  destruct (data0 !! j) as [old|]; simpl; [|done]. f_equal.
  unfold slot_after. destruct (Results resp !! j) as [[r|]|] eqn:Hj; try done.
  destruct (Status r =? StatusOK) eqn:E; [|done].
  apply Z.eqb_eq in E. by destruct (Hbad r eq_refl).
Qed.

(** X4.  After a completed loop the entry at the index of a good result is
    the reading of that result: its record time is the server timestamp,
    its source time the source timestamp, its value the result's value,
    its timestamp the clock at that slot, and its quality is 0, as for
    every reading the loop builds, since only results whose status is
    [StatusOK] are decoded. *)
Theorem X4_decoded_reading_fields data0 resp st i r :
  decode data0 resp = Done st ->
  Results resp !! i = Some (Some r) ->
  Status r = StatusOK ->
  exists d,
    data st !! i = Some d /\
    Quality d = 0 /\
    RecordTime d = ServerTimestamp r /\
    SourceTime d = SourceTimestamp r /\
    ua.Value r = Some (Value d) /\
    Timestamp d = time_Now i.
Proof.
  intros Hrun Hi Hr.
  assert (i < length data0)%nat as Hlt.
  { unfold decode in Hrun.
    destruct (range_from_completes (Results resp) 0
                {| data := data0; errs := replicate 10 EmptyString; succ := false |})
      as [Hall _].
    destruct (Hall (ex_intro _ st Hrun) i (Some r) Hi) as [_ Hlt].
    apply Hlt. by apply status_failed_false_iff. }
  destruct (lookup_lt_is_Some_2 data0 i Hlt) as [di Hdi].
  destruct (decode_slot data0 resp st i r di Hrun Hi Hdi) as (d & Hd & Hgood & _).
  destruct (Hgood Hr) as (_ & _ & Hrec & Hsrc & Hval & Hq & Ht).
  exists d. split; [done|]. split; [by rewrite Hq, Hr|]. done.
Qed.

End ReadNode_more.

(** * The read node's own client: [initClient] and [Destroy] *)

Section ReadNodeClient_properties.
Import ReadNodeClient.
Context `{Env}.

Lemma initClient_held x c : client x = Some c -> initClient x = (Ok c, x).
Proof. intros Hc. unfold initClient. by rewrite Hc. Qed.

Lemma initClients_held n x c : client x = Some c -> initClients n x = x.
Proof.
  intros Hc. induction n as [|n IH]; [done|].
  unfold initClients in *. simpl. rewrite IH. by rewrite (initClient_held x c).
Qed.

(** X5.  Once [initClient] has returned a client, the node holds it: every
    further call, however many, returns that same client, makes no connect
    attempt and changes nothing.  The call that returned it made at most
    one attempt and closed nothing. *)
Theorem X5_initClient_caches x c x1 n :
  initClient x = (Ok c, x1) ->
  client x1 = Some c /\
  (connects x1 <= S (connects x))%nat /\
  closes x1 = closes x /\
  initClients n x1 = x1 /\
  initClient (initClients n x1) = (Ok c, x1).
Proof.
  intros Hcall.
  assert (client x1 = Some c /\ (connects x1 <= S (connects x))%nat /\
          closes x1 = closes x) as (Hc & Hn & Hcl).
  { unfold initClient in Hcall. destruct (client x) as [c0|] eqn:Hx.
    - inversion Hcall; subst. repeat split; [done | lia].
    - destruct (NewOpcUaClient (connects x)); inversion Hcall; subst.
      simpl. repeat split; lia. }
  repeat split; try done.
  - by apply (initClients_held n x1 c).
  - rewrite (initClients_held n x1 c Hc). by apply initClient_held.
Qed.

(** X6.  A connect attempt that fails is not remembered: [initClient]
    returns its error and leaves the node without a client, and the next
    call makes a new attempt, the next in number, and returns what that
    attempt gives. *)
Theorem X6_initClient_retries x e :
  client x = None ->
  NewOpcUaClient (connects x) = Err e ->
  let x1 := snd (initClient x) in
  fst (initClient x) = Err e /\
  client x1 = None /\
  connects x1 = S (connects x) /\
  fst (initClient x1) = NewOpcUaClient (S (connects x)) /\
  client (snd (initClient x1)) =
    match NewOpcUaClient (S (connects x)) with
    | Ok c => Some c
    | Err _ => None
    end.
Proof.
  intros Hx Hfail. unfold initClient. rewrite Hx, Hfail. simpl.
  repeat split. all: by destruct (NewOpcUaClient (S (connects x))).
Qed.

Lemma Destroy_Destroy x : Destroy (Destroy x) = Destroy x.
Proof.
  unfold Destroy. destruct (client x) as [c|] eqn:Hx; simpl; [done|].
  by rewrite Hx.
Qed.

Lemma Destroys_S n x : Destroys (S n) x = Destroy x.
Proof.
  induction n as [|n IH]; [done|].
  change (Destroys (S (S n)) x) with (Destroy (Destroys (S n) x)).
  rewrite IH. apply Destroy_Destroy.
Qed.

(** X7.  [Destroy], called once or many times in a row, closes the client
    the node holds exactly once, and closes nothing when it holds none;
    afterwards the node holds no client, and the next [initClient] makes a
    new connect attempt instead of handing out the closed client. *)
Theorem X7_Destroy_closes_once x n :
  let x' := Destroys (S n) x in
  closes x' = closes x ++ match client x with Some c => [c] | None => [] end /\
  client x' = None /\
  connects x' = connects x /\
  fst (initClient x') = NewOpcUaClient (connects x) /\
  connects (snd (initClient x')) = S (connects x).
Proof.
  intros x'. unfold x'. rewrite Destroys_S. unfold Destroy, initClient.
  destruct (client x) as [c|] eqn:Hx; simpl; rewrite ?Hx, ?app_nil_r;
    destruct (NewOpcUaClient (connects x)); done.
Qed.

Lemma opened_S n :
  opened (S n) =
  opened n ++ match NewOpcUaClient n with Ok c => [c] | Err _ => [] end.
Proof.
  unfold opened. rewrite seq_S, omap_app. simpl.
  by destruct (NewOpcUaClient n).
Qed.

Lemma perform_accounts c x :
  closes x ++ option_list (client x) = opened (connects x) ->
  closes (perform c x) ++ option_list (client (perform c x)) =
    opened (connects (perform c x)).
Proof.
  intros Hinv. destruct c; simpl.
  - unfold initClient. destruct (client x) as [c|] eqn:Hx; simpl; [by rewrite Hx|].
    simpl in Hinv. rewrite app_nil_r in Hinv.
    destruct (NewOpcUaClient (connects x)) as [c|e] eqn:Hn; simpl;
      rewrite opened_S, Hn, Hinv; [done | by rewrite !app_nil_r].
  - unfold Destroy. destruct (client x) as [c|] eqn:Hx; simpl.
    + simpl in Hinv. by rewrite app_nil_r.
    + by rewrite Hx.
Qed.

(** X8.  Through any sequence of [initClient] and [Destroy] calls on a new
    node, the clients that the connect attempts have opened are, in the
    order they were opened, the ones [Destroy] has closed followed by the
    one the node holds, if it holds one: no client is left behind unclosed
    when another is opened, and none is closed twice. *)
Theorem X8_clients_closed_or_held cs :
  let x := run cs New in
  closes x ++ option_list (client x) = opened (connects x).
Proof.
  simpl.
  assert (forall x, closes x ++ option_list (client x) = opened (connects x) ->
                    closes (run cs x) ++ option_list (client (run cs x)) =
                      opened (connects (run cs x))) as Hrun.
  { induction cs as [|c cs IH]; intros x Hx; [done|].
    simpl. apply IH. by apply perform_accounts. }
  by apply Hrun.
Qed.

End ReadNodeClient_properties.

(** * More on the endpoint *)

Section Endpoint_more.
Import ua opcuaClient Endpoint.
Context `{Env}.

(** X9.  [Start] returns the verdict of the cron parser on the interval
    and nothing else: the error of the shared node's initialisation is
    overwritten, so a server that cannot be reached does not make [Start]
    fail.  On an adapter whose shared node is initialised, [Start] makes
    no connect attempt and leaves the connection as it is. *)
Theorem X9_Start_reports_the_interval_only s :
  fst (Start s) = Done (cron_Parse (Interval (Config s))) /\
  (isInit s = true ->
     client (snd (Start s)) = client s /\
     EndpointLog.connects (log (snd (Start s))) = EndpointLog.connects (log s)).
Proof.
  split.
  - destruct (Start_effect s) as (Hret & _). rewrite Hret.
    unfold cron.AddFunc. by destruct (cron_Parse _).
  - destruct s as [cfg r ct id init cl n dr lg lgr]. simpl. intros ->.
    unfold Start, assign_cron_New, cron_call, bind, gets, modify, ret. simpl.
    destruct ct as [c|]; simpl; unfold cron.AddFunc;
      destruct (cron_Parse (Interval cfg)); simpl; (split; [done|]);
      unfold EndpointLog.connects; rewrite !filter_app; simpl;
      by rewrite !app_nil_r.
Qed.

(** X10.  A [Start] whose interval the parser rejects returns the parse
    error, and still stops the schedule that was running and replaces its
    cron object: the new object is started with no entry and [taskId] is 0,
    so afterwards no entry can fire. *)
Theorem X10_Start_with_rejected_interval s err :
  Forall stopped (dropped s) ->
  cron_Parse (Interval (Config s)) = Some err ->
  let s' := snd (Start s) in
  fst (Start s) = Done (Some err) /\
  taskId s' = 0 /\
  cronTask s' = Some {| cron.entries := []; cron.running := true; cron.nextID := 0 |} /\
  dropped s' = dropped s ++ match cronTask s with Some c => [cron.Stop c] | None => [] end /\
  active_entries s' = [].
Proof.
  intros Hd Hparse s'.
  destruct (Start_effect s) as (Hret & _ & Hdr & Hct & Hid & _).
  fold s' in Hdr, Hct, Hid.
  unfold cron.AddFunc in Hret, Hct, Hid. rewrite Hparse in Hret, Hct, Hid.
  simpl in Hret, Hct, Hid. repeat split; try done.
  unfold active_entries. rewrite Hdr, Hct.
  by rewrite (no_active _ (Forall_stopped_snoc _ _ Hd)).
Qed.

(** X11.  After [Close] no schedule entry can fire.  And [Close] after a
    [Start] whose interval was accepted removes the very entry that
    [Start] registered: the cron object is left stopped and empty. *)
Theorem X11_Close_ends_the_schedule s :
  Forall stopped (dropped s) ->
  active_entries (snd (Close s)) = [] /\
  (cron_Parse (Interval (Config s)) = None ->
     cronTask (snd (Close (snd (Start s)))) =
       Some {| cron.entries := []; cron.running := false; cron.nextID := 1 |} /\
     active_entries (snd (Close (snd (Start s)))) = []).
Proof.
  intros Hd.
  assert (forall s0, Forall stopped (dropped s0) -> active_entries (snd (Close s0)) = [])
    as Hclose.
  { intros s0 Hd0.
    destruct (Close_effect s0) as (_ & _ & _ & Hct & _ & _ & _ & _ & Hdr & _).
    unfold active_entries. rewrite Hdr, Hct, (no_active _ Hd0).
    by destruct (cronTask s0). }
  split; [by apply Hclose|]. intros Hparse.
  destruct (Start_effect s) as (_ & _ & Hdr & Hct & Hid & _).
  unfold cron.AddFunc in Hct, Hid. rewrite Hparse in Hct, Hid. simpl in Hct, Hid.
  split.
  - destruct (Close_effect (snd (Start s))) as (_ & _ & _ & Hct' & _).
    rewrite Hct', Hct, Hid. done.
  - apply Hclose. rewrite Hdr. by apply Forall_stopped_snoc.
Qed.

Lemma Start_keeps_Router s : Router (snd (Start s)) = Router s.
Proof.
  destruct s as [cfg r ct id init cl n dr lg lgr].
  unfold Start, SharedNode_InitWithClose, SharedNode_GetSafely, assign_cron_New,
    cron_call, bind, gets, modify, ret.
  simpl.
  destruct init; simpl;
    [|destruct cl as [c0|]; simpl; [|destruct (NewOpcUaClient cfg) as [c0|e0]; simpl]].
  all: destruct ct as [c|]; simpl.
  all: unfold cron.AddFunc; simpl; by destruct (cron_Parse (Interval cfg)).
Qed.

Lemma tick_keeps_Router s : Router (snd (tick s)) = Router s.
Proof.
  unfold tick, recovered, job, bind, gets, ret. simpl.
  destruct (Router s) as [router|] eqn:Hr; [|done].
  pose proof (readNodes_keeps router s) as (_ & _ & _ & _ & Hro).
  destruct (readNodes router s) as [[o|p] s1]; simpl in *; by rewrite Hro.
Qed.

Lemma Route_stays cs : forall s r,
  Router s = Some r ->
  forallb (fun c => negb (EndpointLog.is_RemoveRouter c)) cs = true ->
  Router (run cs s) = Some r.
Proof.
  induction cs as [|c cs IH]; intros s r Hr Hcs; [done|].
  simpl in Hcs. apply andb_true_iff in Hcs as [Hc Hcs].
  simpl. apply IH; [|done].
  destruct c as [| |r'|id|]; simpl.
  - by rewrite Start_keeps_Router.
  - by destruct (Close_effect s) as (_ & _ & -> & _).
  - unfold AddRouter, bind, gets, modify, ret. destruct r' as [r'|]; simpl; [|done].
    by rewrite Hr.
  - done.
  - by rewrite tick_keeps_Router.
Qed.

(** X12.  An attached Route is displaced by [RemoveRouter] and by nothing
    else: through any sequence of [Start], [Close], [AddRouter] and
    firings it stays the Route it was, every other router being rejected.
    [RemoveRouter] never looks at the id it is given: with any id, and
    whether or not a Route is attached, it returns no error and leaves the
    slot empty, so that a tick does nothing and the next [AddRouter] of a
    router succeeds and returns that router's id. *)
Theorem X12_Route_is_displaced_by_RemoveRouter_only cs s r0 id id' r :
  Router s = Some r0 ->
  forallb (fun c => negb (EndpointLog.is_RemoveRouter c)) cs = true ->
  let s1 := run cs s in
  let s' := snd (RemoveRouter id s1) in
  Router s1 = Some r0 /\
  RemoveRouter id s1 = RemoveRouter id' s1 /\
  fst (RemoveRouter id s1) = Done None /\
  Router s' = None /\
  tick s' = (Done tt, s') /\
  AddRouter (Some r) s' = (Done (endpointApi.GetId r, None), set_Router (Some r) s').
Proof.
  intros Hr Hcs s1 s'. split; [by apply Route_stays|]. done.
Qed.

Lemma tick_contained s0 :
  fst (tick s0) = Done tt /\
  activeOperations (snd (tick s0)) = activeOperations s0 /\
  Config (snd (tick s0)) = Config s0 /\
  cronTask (snd (tick s0)) = cronTask s0 /\
  dropped (snd (tick s0)) = dropped s0 /\
  Router (snd (tick s0)) = Router s0.
Proof.
  unfold tick, recovered, job, bind, gets, ret. simpl.
  destruct (Router s0) as [router|] eqn:Hr; [|done].
  pose proof (readNodes_keeps router s0) as (Hc & Hct & Hd & _ & Hro).
  pose proof (readNodes_bracket router s0) as (Ha & _).
  destruct (readNodes router s0) as [[o|p] s1]; simpl in *; by rewrite Hro.
Qed.

(** X13.  A firing of the schedule never panics, whatever the router does
    with the exchange: a panic of the processing is recovered.  It leaves
    the Active-Operation Counter, the configuration, the schedule and the
    attached Route as it found them, and so does any number of firings. *)
Theorem X13_tick_is_contained s n :
  fst (tick s) = Done tt /\
  activeOperations (calls tick n s) = activeOperations s /\
  Config (calls tick n s) = Config s /\
  cronTask (calls tick n s) = cronTask s /\
  dropped (calls tick n s) = dropped s /\
  Router (calls tick n s) = Router s.
Proof.
  split; [apply tick_contained|].
  induction n as [|n IH]; [done|].
  rewrite calls_S.
  destruct (tick_contained (calls tick n s)) as (_ & Ha & Hc & Hct & Hd & Hr).
  destruct IH as (IHa & IHc & IHct & IHd & IHr).
  repeat split; congruence.
Qed.

(** X14.  When the shared client is there (or can be built) and the
    batched read succeeds, [readNodes] hands exactly one exchange to the
    router, whose request and response message both carry the readings
    the read returned; the per-node results of the response are not looked
    at.  It returns no error, unless the processing panics, and then the
    panic goes on to the caller. *)
Theorem X14_readNodes_dispatches_once router s c data resp :
  client s = Some c \/ (client s = None /\ NewOpcUaClient (Config s) = Ok c) ->
  opcuaClient_Read c (NodeIds (Config s)) = Ok (data, resp) ->
  let exchange := {| endpointApi.In_data := data; endpointApi.Out_data := data |} in
  fst (readNodes router s) =
    match DoProcess router exchange with
    | Some p => Panic p
    | None => Done None
    end /\
  dispatched (log (snd (readNodes router s))) =
    dispatched (log s) ++ [ev_DoProcess router exchange] /\
  client (snd (readNodes router s)) = Some c.
Proof.
  destruct s as [cfg r ct id init cl n dr lg lgr]. simpl.
  unfold readNodes, with_defer, SharedNode_GetSafely, Printf, panic,
    IncrementActiveOperations, DecrementActiveOperations, bind, gets, modify, ret.
  simpl. intros [-> | [-> Hnew]] Hread; simpl; rewrite ?Hnew; simpl;
    rewrite Hread; simpl.
  all: destruct (DoProcess router _); simpl.
  all: split; [done|]; split; [|done]; rewrite !dispatched_app; simpl.
  all: by rewrite !app_nil_r.
Qed.

(** X15.  When there is no shared client and building one fails,
    [readNodes] returns the connect error, after printing it with the
    format "get shared client error %v " if the rule configuration has a
    logger and printing nothing if it has none; it attempts no read, hands
    nothing to the router, and the counter is paired all the same. *)
Theorem X15_readNodes_without_client router s err :
  client s = None ->
  NewOpcUaClient (Config s) = Err err ->
  fst (readNodes router s) = Done (Some err) /\
  log (snd (readNodes router s)) =
    log s ++ [ev_Increment; ev_NewOpcUaClient] ++
    (if RuleConfig_Logger s
     then [ev_Printf "get shared client error %v " err] else []) ++
    [ev_Decrement] /\
  client (snd (readNodes router s)) = None /\
  activeOperations (snd (readNodes router s)) = activeOperations s.
Proof.
  destruct s as [cfg r ct id init cl n dr lg lgr]. simpl.
  unfold readNodes, with_defer, SharedNode_GetSafely, Printf, panic,
    IncrementActiveOperations, DecrementActiveOperations, bind, gets, modify, ret.
  simpl. intros -> Hnew; simpl; rewrite Hnew; simpl.
  destruct lgr; simpl; repeat split; try lia; by rewrite <- !app_assoc.
Qed.

Lemma Start_keeps_counter s :
  activeOperations (snd (Start s)) = activeOperations s.
Proof.
  destruct s as [cfg r ct id init cl n dr lg lgr].
  unfold Start, SharedNode_InitWithClose, SharedNode_GetSafely, assign_cron_New,
    cron_call, bind, gets, modify, ret.
  simpl.
  destruct init; simpl;
    [|destruct cl as [c0|]; simpl; [|destruct (NewOpcUaClient cfg) as [c0|e0]; simpl]].
  all: destruct ct as [c|]; simpl.
  all: unfold cron.AddFunc; simpl; by destruct (cron_Parse (Interval cfg)).
Qed.

Lemma perform_keeps_counter c s :
  activeOperations (perform c s) = activeOperations s.
Proof.
  destruct c as [| |r|id|]; simpl.
  - apply Start_keeps_counter.
  - by destruct (Close_effect s) as (_ & _ & _ & _ & _ & _ & _ & Ha & _).
  - unfold AddRouter, bind, gets, modify, ret. destruct r as [r|]; simpl; [|done].
    by destruct (Router s).
  - done.
  - apply (tick_contained s).
Qed.

(** X20.  Between calls the Active-Operation Counter never differs from
    the value it started with: through any sequence of [Start], [Close],
    [AddRouter], [RemoveRouter] and firings of the schedule, each firing
    that reads gives back what it took, also when the read fails or the
    router panics, and no other method touches the counter. *)
Theorem X20_counter_is_restored cs s :
  activeOperations (run cs s) = activeOperations s.
Proof.
  revert s. induction cs as [|c cs IH]; intros s; [done|].
  simpl. rewrite IH. apply perform_keeps_counter.
Qed.

Lemma only_the_task id (l : list cron.Entry) :
  Forall (fun e => cron.ID e = id) l -> filter (fun e => cron.ID e ≠ id) l = [].
Proof.
  induction 1 as [|e l He _ IH]; [done|].
  rewrite filter_cons. by rewrite decide_False by (intros Hne; by apply Hne).
Qed.

(** The entries of the cron object the adapter points to all carry the id
    stored in [taskId], which is then not 0. *)
Lemma entries_are_the_task c s :
  (forall c0, cronTask s = Some c0 ->
     Forall (fun e => cron.ID e = taskId s /\ taskId s <> 0) (cron.entries c0)) ->
  forall c0, cronTask (perform c s) = Some c0 ->
     Forall (fun e => cron.ID e = taskId (perform c s) /\ taskId (perform c s) <> 0)
            (cron.entries c0).
Proof.
  intros Hinv c0. destruct c as [| |r|id|]; simpl.
  - destruct (Start_effect s) as (_ & _ & _ & Hct & Hid & _).
    rewrite Hct, Hid. intros [= <-]. unfold cron.AddFunc.
    destruct (cron_Parse _); simpl; [constructor|].
    constructor; [done | constructor].
  - destruct (Close_effect s) as (_ & _ & _ & Hct & Hid & _).
    rewrite Hct, Hid. destruct (cronTask s) as [c1|]; [|done].
    simpl. intros [= <-]. specialize (Hinv c1 eq_refl).
    destruct (bool_decide _); simpl; [|done].
    apply Forall_forall. intros e He. apply list_elem_of_filter in He as [_ He].
    by apply (proj1 (Forall_forall _ _) Hinv).
  - unfold AddRouter, bind, gets, modify, ret. destruct r as [r|]; simpl; [|by apply Hinv].
    destruct (Router s); simpl; by apply Hinv.
  - by apply Hinv.
  - unfold tick, recovered, job, bind, gets, ret. simpl.
    destruct (Router s) as [router|]; [|by apply Hinv].
    pose proof (readNodes_keeps router s) as (_ & Hct & _ & Hid & _).
    destruct (readNodes router s) as [[o|p] s1]; simpl in *;
      rewrite Hct, Hid; by apply Hinv.
Qed.

(** X21.  On an adapter that started without a cron object, after any
    sequence of calls, [Close] finds in the cron object no entry but the
    one [taskId] names and removes it: the cron object it leaves is
    stopped and has no entry. *)
Theorem X21_Close_empties_the_cron cs s0 :
  cronTask s0 = None ->
  let s := run cs s0 in
  cronTask (snd (Close s)) =
    (fun c => {| cron.entries := []; cron.running := false;
                 cron.nextID := cron.nextID c |}) <$> cronTask s.
Proof.
  intros Hnone s.
  assert (forall c0, cronTask s = Some c0 ->
            Forall (fun e => cron.ID e = taskId s /\ taskId s <> 0) (cron.entries c0))
    as Hinv.
  { unfold s. clear s.
    assert (forall c0, cronTask s0 = Some c0 ->
              Forall (fun e => cron.ID e = taskId s0 /\ taskId s0 <> 0) (cron.entries c0))
      as H0 by (intros c0; by rewrite Hnone).
    clear Hnone. revert s0 H0.
    induction cs as [|c cs IH]; intros s0 H0; [done|].
    simpl. apply IH. by apply entries_are_the_task. }
  destruct (Close_effect s) as (_ & _ & _ & Hct & _).
  rewrite Hct. destruct (cronTask s) as [c|] eqn:Hc; [|done].
  simpl. f_equal. specialize (Hinv c eq_refl).
  assert (taskId s <> 0 \/ cron.entries c = []) as [Hne | Hnil].
  { destruct (cron.entries c) as [|e l]; [by right|].
    apply Forall_cons in Hinv as [[_ Hne] _]. by left. }
  - rewrite bool_decide_true by done. unfold cron.Stop, cron.Remove. simpl.
    f_equal. apply only_the_task.
    eapply Forall_impl; [exact Hinv|]. by intros e [He _].
  - destruct (bool_decide _); unfold cron.Stop, cron.Remove; simpl;
      rewrite Hnil; done.
Qed.

End Endpoint_more.

(** * The request and response messages *)

Section Messages.
Import message.
Context `{Env}.

Lemma Request_perform_keeps c r :
  RequestMessage.data (RequestMessage.perform c r) = RequestMessage.data r /\
  RequestMessage.err (RequestMessage.perform c r) = RequestMessage.err r.
Proof.
  destruct c; simpl; try done.
  - unfold RequestMessage.Headers. by destruct (RequestMessage.headers r).
  - unfold RequestMessage.GetMsg. destruct (RequestMessage.msg r); [done|].
    by destruct (RequestMessage.Body r).
Qed.

Lemma Request_run_keeps cs : forall r,
  RequestMessage.data (RequestMessage.run cs r) = RequestMessage.data r /\
  RequestMessage.err (RequestMessage.run cs r) = RequestMessage.err r.
Proof.
  induction cs as [|c cs IH]; intros r; [done|].
  simpl. destruct (IH (RequestMessage.perform c r)) as [Hd He].
  destruct (Request_perform_keeps c r) as [Hd' He']. split; congruence.
Qed.

(** X16.  No call on a request message changes what [GetError] and [Body]
    return: [SetError] stores nothing, so the error stays the one the
    message was made with, and [SetBody] does not reach [Body], which
    always serialises the readings the message was made with. *)
Theorem X16_Request_error_and_body_are_fixed cs r :
  RequestMessage.GetError (RequestMessage.run cs r) = RequestMessage.GetError r /\
  RequestMessage.Body (RequestMessage.run cs r) = RequestMessage.Body r.
Proof.
  destruct (Request_run_keeps cs r) as [Hd He]. split; [done|].
  unfold RequestMessage.Body. by rewrite Hd.
Qed.

Lemma Request_msg_stays cs : forall r m,
  RequestMessage.msg r = Some m ->
  forallb (fun c => negb (is_SetMsg c)) cs = true ->
  RequestMessage.msg (RequestMessage.run cs r) = Some m.
Proof.
  induction cs as [|c cs IH]; intros r m Hm Hcs; [done|].
  simpl in Hcs. apply andb_true_iff in Hcs as [Hc Hcs].
  simpl. apply IH; [|done].
  destruct c; simpl; try done.
  - unfold RequestMessage.Headers. by destruct (RequestMessage.headers r).
  - unfold RequestMessage.GetMsg. by rewrite Hm.
Qed.

Lemma Request_GetMsg_sets r :
  RequestMessage.msg (snd (fst (RequestMessage.GetMsg r))) =
    Some (fst (fst (RequestMessage.GetMsg r))).
Proof.
  unfold RequestMessage.GetMsg. destruct (RequestMessage.msg r) eqn:Hm; [done|].
  by destruct (RequestMessage.Body r).
Qed.

(** X17.  [GetMsg] on a request message builds the rule message at most
    once.  The message it returns, built (with type OPC_UA_DATA and the
    serialised readings as payload) or found, is stored, and every later
    [GetMsg] returns it without serialising or printing anything, through
    any calls that are not [SetMsg]; after [SetMsg] with a message, that
    message is the one returned. *)
Theorem X17_Request_GetMsg_is_cached cs r m' :
  forallb (fun c => negb (is_SetMsg c)) cs = true ->
  let m := fst (fst (RequestMessage.GetMsg r)) in
  let r1 := snd (fst (RequestMessage.GetMsg r)) in
  (RequestMessage.msg r = None ->
     m = NewMsg (string_of (fst (RequestMessage.Body r)))) /\
  RequestMessage.GetMsg (RequestMessage.run cs r1) = (m, RequestMessage.run cs r1, []) /\
  RequestMessage.GetMsg (RequestMessage.run cs (RequestMessage.SetMsg (Some m') r)) =
    (m', RequestMessage.run cs (RequestMessage.SetMsg (Some m') r), []).
Proof.
  intros Hcs m r1. split; [|split].
  - intros Hm. unfold m, RequestMessage.GetMsg. rewrite Hm.
    by destruct (RequestMessage.Body r).
  - pose proof (Request_msg_stays cs r1 m (Request_GetMsg_sets r) Hcs) as Hm.
    unfold RequestMessage.GetMsg at 1. by rewrite Hm.
  - pose proof (Request_msg_stays cs (RequestMessage.SetMsg (Some m') r) m' eq_refl Hcs)
      as Hm.
    unfold RequestMessage.GetMsg at 1. by rewrite Hm.
Qed.

Lemma Response_perform_with_data d c r :
  ResponseMessage.perform c (ResponseMessage.with_data d r) =
  ResponseMessage.with_data d (ResponseMessage.perform c r).
Proof.
  destruct c; simpl; try done.
  - unfold ResponseMessage.Headers. simpl. by destruct (ResponseMessage.headers r).
  - unfold ResponseMessage.GetMsg. simpl. destruct (ResponseMessage.msg r); [done|].
    unfold ResponseMessage.Body. simpl. by destruct (Marshal_bytes _).
Qed.

Lemma Response_run_with_data d cs : forall r,
  ResponseMessage.run cs (ResponseMessage.with_data d r) =
  ResponseMessage.with_data d (ResponseMessage.run cs r).
Proof.
  induction cs as [|c cs IH]; intros r; [done|].
  simpl. by rewrite Response_perform_with_data, IH.
Qed.

(** X18.  The readings stored in a response message are never read: two
    response messages that differ in their readings only give the same
    [Body], the same [GetMsg] message, the same [getBody], [GetError] and
    [Headers] after any sequence of calls.  In particular the message that
    [GetMsg] builds for the response that [readNodes] makes carries the
    serialisation of the nil body, whatever was read. *)
Theorem X18_Response_readings_are_never_read cs r d :
  let r1 := ResponseMessage.run cs r in
  let r2 := ResponseMessage.run cs (ResponseMessage.with_data d r) in
  ResponseMessage.Body r2 = ResponseMessage.Body r1 /\
  fst (fst (ResponseMessage.GetMsg r2)) = fst (fst (ResponseMessage.GetMsg r1)) /\
  ResponseMessage.getBody r2 = ResponseMessage.getBody r1 /\
  ResponseMessage.GetError r2 = ResponseMessage.GetError r1 /\
  fst (ResponseMessage.Headers r2) = fst (ResponseMessage.Headers r1) /\
  fst (fst (ResponseMessage.GetMsg (ResponseMessage.of_data d))) =
    NewMsg (string_of (match Marshal_bytes None with
                       | Ok b => Some b
                       | Err _ => None
                       end)).
Proof.
  intros r1 r2. unfold r2. rewrite Response_run_with_data. fold r1.
  repeat split.
  - unfold ResponseMessage.GetMsg. simpl. destruct (ResponseMessage.msg r1); [done|].
    unfold ResponseMessage.Body. simpl. by destruct (Marshal_bytes _).
  - unfold ResponseMessage.Headers. simpl. by destruct (ResponseMessage.headers r1).
  - unfold ResponseMessage.GetMsg, ResponseMessage.Body. simpl.
    by destruct (Marshal_bytes None).
Qed.

Lemma Response_body_stays cs : forall r,
  forallb (fun c => negb (is_SetBody c)) cs = true ->
  ResponseMessage.body (ResponseMessage.run cs r) = ResponseMessage.body r /\
  ResponseMessage.err (ResponseMessage.run cs r) = ResponseMessage.err r.
Proof.
  induction cs as [|c cs IH]; intros r Hcs; [done|].
  simpl in Hcs. apply andb_true_iff in Hcs as [Hc Hcs].
  simpl. destruct (IH (ResponseMessage.perform c r) Hcs) as [Hb He].
  rewrite Hb, He. destruct c; simpl; try done.
  - unfold ResponseMessage.Headers. by destruct (ResponseMessage.headers r).
  - unfold ResponseMessage.GetMsg. destruct (ResponseMessage.msg r); [done|].
    by destruct (ResponseMessage.Body r).
Qed.

(** X19.  On a response message, what [SetBody] stored is what [getBody]
    returns and what [Body] serialises, through any later calls that are
    not [SetBody]; and as on a request message [SetError] stores nothing:
    [GetError] keeps returning the error the message was made with. *)
Theorem X19_Response_SetBody_getBody cs r b :
  forallb (fun c => negb (is_SetBody c)) cs = true ->
  let r' := ResponseMessage.run cs (ResponseMessage.SetBody b r) in
  ResponseMessage.getBody r' = b /\
  ResponseMessage.Body r' =
    match Marshal_bytes b with
    | Ok text => (Some text, [])
    | Err e => (None, [e])
    end /\
  ResponseMessage.GetError r' = ResponseMessage.GetError r.
Proof.
  intros Hcs r'.
  destruct (Response_body_stays cs (ResponseMessage.SetBody b r) Hcs) as [Hb He].
  fold r' in Hb, He. unfold ResponseMessage.getBody, ResponseMessage.Body,
    ResponseMessage.GetError. rewrite Hb, He. done.
Qed.

End Messages.

(** * The further theorems at concrete inputs *)

Section Concrete_more.
Import ua opcuaClient.

Lemma partial_loop_decoded :
  @ReadNode.decode (Mock.ReadNode_env Mock.partial_ids Mock.Read)
      (Mock.prepared <$> Mock.partial_ids) (Mock.response Mock.partial_ids) =
    Done Fixture.partial_loop.
Proof. vm_compute. reflexivity. Defined.

(** X3 at the two-identifier request. *)
Lemma X3_witness :
  NodeId <$> ReadNode.data Fixture.partial_loop = Mock.partial_ids.
Proof.
  destruct (@X3_decode_keeps_identities
              (Mock.ReadNode_env Mock.partial_ids Mock.Read)
              (Mock.prepared <$> Mock.partial_ids) (Mock.response Mock.partial_ids)
              Fixture.partial_loop partial_loop_decoded) as (Hid & _).
  rewrite Hid. reflexivity.
Defined.

(** X4 at the first, good, node of the two-identifier request. *)
Lemma X4_witness :
  exists d, ReadNode.data Fixture.partial_loop !! 0%nat = Some d /\ Quality d = 0.
Proof.
  destruct (@X4_decoded_reading_fields
              (Mock.ReadNode_env Mock.partial_ids Mock.Read)
              (Mock.prepared <$> Mock.partial_ids) (Mock.response Mock.partial_ids)
              Fixture.partial_loop 0%nat Fixture.good_result
              partial_loop_decoded eq_refl eq_refl) as (d & Hd & Hq & _).
  exists d. split; [exact Hd | exact Hq].
Defined.

(** X5 at the second attempt on the server that refuses the first. *)
Lemma X5_witness :
  @ReadNodeClient.initClient Fixture.node_env
    (@ReadNodeClient.initClients Fixture.node_env 3
       {| ReadNodeClient.client := Some 101%nat; ReadNodeClient.connects := 2;
          ReadNodeClient.closes := [] |}) =
  (Ok 101%nat,
   {| ReadNodeClient.client := Some 101%nat; ReadNodeClient.connects := 2;
      ReadNodeClient.closes := [] |}).
Proof.
  apply (@X5_initClient_caches Fixture.node_env
           {| ReadNodeClient.client := None; ReadNodeClient.connects := 1;
              ReadNodeClient.closes := [] |} 101%nat _ 3 eq_refl).
Defined.

(** X6 at a new node on the server that refuses the first attempt. *)
Lemma X6_witness :
  fst (@ReadNodeClient.initClient Fixture.node_env
         (snd (@ReadNodeClient.initClient Fixture.node_env ReadNodeClient.New))) =
  Ok 101%nat.
Proof.
  apply (@X6_initClient_retries Fixture.node_env ReadNodeClient.New
           (errors_New "connection refused") eq_refl eq_refl).
Defined.

(** X9 at an adapter that is initialised and connected. *)
Lemma X9_witness :
  Endpoint.client
    (snd (@Endpoint.Start (Mock.Endpoint_env Mock.Read)
            (Endpoint.set_isInit true Fixture.connected))) = Some 1%nat.
Proof.
  apply (@X9_Start_reports_the_interval_only (Mock.Endpoint_env Mock.Read)
           (Endpoint.set_isInit true Fixture.connected)).
  reflexivity.
Defined.

(** X10 at the adapter whose interval is the empty string. *)
Lemma X10_witness :
  Endpoint.active_entries
    (snd (@Endpoint.Start (Mock.Endpoint_env Mock.Read) Fixture.bad_interval)) = [].
Proof.
  apply (@X10_Start_with_rejected_interval (Mock.Endpoint_env Mock.Read)
           Fixture.bad_interval (errors_New "empty spec string")).
  - constructor.
  - reflexivity.
Defined.

(** X11 at a new adapter. *)
Lemma X11_witness :
  Endpoint.active_entries
    (snd (@Endpoint.Close (Mock.Endpoint_env Mock.Read)
            (snd (@Endpoint.Start (Mock.Endpoint_env Mock.Read) Endpoint.New)))) = [].
Proof.
  apply (@X11_Close_ends_the_schedule (Mock.Endpoint_env Mock.Read) Endpoint.New).
  - constructor.
  - reflexivity.
Defined.

(** X14 at a connected adapter whose router panics. *)
Lemma X14_witness :
  fst (@Endpoint.readNodes Fixture.panicking_env Mock.router Fixture.connected) =
    Panic (PanicOther "router").
Proof.
  apply (@X14_readNodes_dispatches_once Fixture.panicking_env Mock.router
           Fixture.connected 1%nat [] (Mock.response [])).
  - left. reflexivity.
  - reflexivity.
Defined.

(** X15 at an adapter with a logger whose server cannot be reached. *)
Lemma X15_witness :
  Endpoint.log
    (snd (@Endpoint.readNodes Fixture.unreachable_env Mock.router
            (Endpoint.set_Logger true Endpoint.New))) =
  [Endpoint.ev_Increment; Endpoint.ev_NewOpcUaClient;
   Endpoint.ev_Printf "get shared client error %v " (errors_New "connection refused");
   Endpoint.ev_Decrement].
Proof.
  apply (@X15_readNodes_without_client Fixture.unreachable_env Mock.router
           (Endpoint.set_Logger true Endpoint.New) (errors_New "connection refused")).
  - reflexivity.
  - reflexivity.
Defined.

(** X17 at the request message of an empty read, through three calls. *)
Lemma X17_witness :
  fst (fst (@RequestMessage.GetMsg Fixture.message_env
              (@RequestMessage.run Fixture.message_env
                 [message.call_SetBody (Some "x"); message.call_GetMsg;
                  message.call_SetError (Some (errors_New "late"))]
                 (RequestMessage.SetMsg (Some Mock.msg) (RequestMessage.of_data []))))) =
  Mock.msg.
Proof.
  destruct (@X17_Request_GetMsg_is_cached Fixture.message_env
              [message.call_SetBody (Some "x"); message.call_GetMsg;
               message.call_SetError (Some (errors_New "late"))]
              (RequestMessage.of_data []) Mock.msg eq_refl) as (_ & _ & Hset).
  rewrite Hset. reflexivity.
Defined.

(** X19 at the response message of an empty read. *)
Lemma X19_witness :
  @ResponseMessage.getBody
    (@ResponseMessage.run Fixture.message_env
       [message.call_GetMsg; message.call_SetError (Some (errors_New "late"))]
       (ResponseMessage.SetBody (Some "ok") (ResponseMessage.of_data []))) =
  Some "ok".
Proof.
  apply (@X19_Response_SetBody_getBody Fixture.message_env
           [message.call_GetMsg; message.call_SetError (Some (errors_New "late"))]
           (ResponseMessage.of_data []) (Some "ok") eq_refl).
Defined.

(** X12 at an adapter with a Route attached, through four calls. *)
Lemma X12_witness :
  Endpoint.Router
    (@Endpoint.run (Mock.Endpoint_env Mock.Read)
       [Endpoint.call_Start; Endpoint.call_AddRouter (Some {| endpointApi.GetId := "r2" |});
        Endpoint.call_tick; Endpoint.call_Close]
       (Endpoint.set_Router (Some Mock.router) Endpoint.New)) = Some Mock.router.
Proof.
  apply (@X12_Route_is_displaced_by_RemoveRouter_only (Mock.Endpoint_env Mock.Read)
           [Endpoint.call_Start; Endpoint.call_AddRouter (Some {| endpointApi.GetId := "r2" |});
            Endpoint.call_tick; Endpoint.call_Close]
           (Endpoint.set_Router (Some Mock.router) Endpoint.New)
           Mock.router "a" "b" Mock.router eq_refl eq_refl).
Defined.

(** X21 at a new adapter, after two starts with a firing in between. *)
Lemma X21_witness :
  Endpoint.cronTask
    (snd (@Endpoint.Close (Mock.Endpoint_env Mock.Read)
            (@Endpoint.run (Mock.Endpoint_env Mock.Read)
               [Endpoint.call_Start; Endpoint.call_tick; Endpoint.call_Start]
               Endpoint.New))) =
  Some {| cron.entries := []; cron.running := false; cron.nextID := 1 |}.
Proof.
  rewrite (@X21_Close_empties_the_cron (Mock.Endpoint_env Mock.Read)
             [Endpoint.call_Start; Endpoint.call_tick; Endpoint.call_Start]
             Endpoint.New eq_refl).
  reflexivity.
Defined.

End Concrete_more.
